(** * pgexec: connection resolution, query execution and result materialisation

    A shallow embedding of [main.go] of pgexec.  Go strings are byte
    strings and are modelled by [string]; Go's [int] is the 64-bit signed
    integer and is modelled by [Z] with the wrap-around written out where the
    code converts.  The database driver (pgx), the UUID package and the table
    writer are outside the program: they appear as a record of responses
    ([World]) and as a trace of the calls the program makes ([event]). *)

From Stdlib Require Import ZArith Strings.Byte Ascii String List Lia.
From Stdlib Require DecimalString HexadecimalString.
From stdpp Require Import gmap strings list fin_maps vector.

Open Scope string_scope.
Open Scope list_scope.
Open Scope Z_scope.

(** ** Strings *)

Module gostrings.

(** The cut set of [trim]: space, tab, line feed, carriage return. *)
Definition cutset : string := String " " (String "009" (String "010" (String "013" ""))).

Fixpoint contains (set : string) (c : ascii) : bool :=
  match set with
  | "" => false
  | String d set' => if Ascii.eqb c d then true else contains set' c
  end.

Fixpoint trimLeftASCII (s : string) (set : string) : string :=
  match s with
  | "" => ""
  | String c s' => if contains set c then trimLeftASCII s' set else s
  end.

Fixpoint trimRightASCII (s : string) (set : string) : string :=
  match s with
  | "" => ""
  | String c s' =>
      match trimRightASCII s' set with
      | "" => if contains set c then "" else String c ""
      | r => String c r
      end
  end.

(** [strings.Trim] for a cut set of ASCII bytes. *)
Definition Trim (s set : string) : string :=
  trimLeftASCII (trimRightASCII s set) set.

End gostrings.

(** [func trim(str string) string] *)
Definition trim (str : string) : string := gostrings.Trim str gostrings.cutset.

(** ** Errors *)

Inductive NumErrKind := ErrSyntax | ErrRange.

Inductive error :=
| NumError (Func Num : string) (Err : NumErrKind)  (* *strconv.NumError *)
| IncorrectByteLength (got : nat)                  (* uuid.ErrIncorrectByteLength *)
| DriverError (msg : string).                      (* an error value made by pgx *)

(** ** strconv.Atoi on a 64-bit platform *)

Module strconv.

Definition maxUint64 : Z := 2 ^ 64 - 1.

Definition byte_of (c : ascii) : Z := Z.of_N (N_of_ascii c).

Definition is_digit (c : ascii) : bool := (48 <=? byte_of c) && (byte_of c <=? 57).

(** The loop of [ParseUint] for base 10 and bit size 64: [n] is the
    accumulator, a [uint64]. *)
Fixpoint ParseUint_loop (s : string) (n : Z) : Z * option NumErrKind :=
  match s with
  | "" => (n, None)
  | String c s' =>
      if is_digit c then
        let d := byte_of c - 48 in
        if maxUint64 / 10 + 1 <=? n then (maxUint64, Some ErrRange)
        else
          let n := n * 10 in
          let n1 := (n + d) mod 2 ^ 64 in
          if (n1 <? n) || (maxUint64 <? n1) then (maxUint64, Some ErrRange)
          else ParseUint_loop s' n1
      else (0, Some ErrSyntax)
  end.

Definition ParseUint (s : string) : Z * option NumErrKind :=
  match s with
  | "" => (0, Some ErrSyntax)
  | _ => ParseUint_loop s 0
  end.

(** [ParseInt(s, 10, 0)]; the error is reported by its kind, the caller
    fills in the function name and the text. *)
Definition ParseInt (s : string) : Z * option NumErrKind :=
  match s with
  | "" => (0, Some ErrSyntax)
  | String c0 rest =>
      let neg := Ascii.eqb c0 "-" in
      let s1 := if Ascii.eqb c0 "+" || neg then rest else s in
      let '(un, err) := ParseUint s1 in
      match err with
      | Some ErrSyntax => (0, Some ErrSyntax)
      | _ =>
          let cutoff := 2 ^ 63 in
          if negb neg && (cutoff <=? un) then (cutoff - 1, Some ErrRange)
          else if neg && (cutoff <? un) then (- cutoff, Some ErrRange)
          else (if neg then - un else un, None)
      end
  end.

(** The fast path of [Atoi]: no overflow check, for fewer than 19 bytes. *)
Fixpoint Atoi_loop (s : string) (n : Z) : option Z :=
  match s with
  | "" => Some n
  | String ch s' =>
      let ch := (byte_of ch - 48) mod 256 in
      if 9 <? ch then None else Atoi_loop s' (n * 10 + ch)
  end.

Definition Atoi (s : string) : Z * option error :=
  let sLen := Z.of_nat (String.length s) in
  if (0 <? sLen) && (sLen <? 19) then
    match s with
    | "" => (0, Some (NumError "Atoi" s ErrSyntax))
    | String c0 rest =>
        let signed := Ascii.eqb c0 "-" || Ascii.eqb c0 "+" in
        let s1 := if signed then rest else s in
        if signed && (Z.of_nat (String.length s1) <? 1)
        then (0, Some (NumError "Atoi" s ErrSyntax))
        else
          match Atoi_loop s1 0 with
          | None => (0, Some (NumError "Atoi" s ErrSyntax))
          | Some n => (if Ascii.eqb c0 "-" then - n else n, None)
          end
    end
  else
    let '(i64, err) := ParseInt s in
    (i64, NumError "Atoi" s <$> err).

End strconv.

(** ** Go values held in an [interface{}]

    The dynamic values the row scanner can leave in a slot of [scans]:
    the nil interface, the pointer [&scans[i]] the slot starts with, and the
    values pgx decodes for the column types this development follows. *)

Inductive int_kind := Int16 | Int32 | Int64.

Inductive any :=
| nil_any
| ptr_any (addr : Z)               (* *interface {} *)
| bool_any (b : bool)              (* bool *)
| int_any (k : int_kind) (n : Z)   (* int16, int32, int64 *)
| string_any (s : string)          (* string *)
| bytes_any (b : list byte)        (* []uint8 *)
| array16_any (a : vec byte 16).   (* [16]uint8 *)

(** ** fmt, for the verbs the program uses *)

Module fmt.

Inductive verb := verb_s | verb_t | verb_x | verb_v.

Definition verb_rune (v : verb) : string :=
  match v with verb_s => "s" | verb_t => "t" | verb_x => "x" | verb_v => "v" end.

Definition decimal (n : Z) : string :=
  DecimalString.NilZero.string_of_int (Z.to_int n).

Definition hex (n : Z) : string :=
  HexadecimalString.NilZero.string_of_uint (N.to_hex_uint (Z.to_N n)).

Definition ldigit (n : N) : ascii :=
  ascii_of_N (if (n <? 10)%N then 48 + n else 87 + n)%N.

(** Two lowercase hexadecimal digits per byte. *)
Definition hex_byte (b : byte) : string :=
  let n := Byte.to_N b in String (ldigit (n / 16)) (String (ldigit (n mod 16)) "").

Fixpoint hex_bytes (bs : list byte) : string :=
  match bs with
  | [] => ""
  | b :: bs' => hex_byte b +:+ hex_bytes bs'
  end.

Definition string_of_bytes (bs : list byte) : string :=
  string_of_list_ascii (map ascii_of_byte bs).

Definition bytes_of_string (s : string) : list byte :=
  map byte_of_ascii (list_ascii_of_string s).

(** [reflect.TypeOf(arg).String()] *)
Definition type_name (a : any) : string :=
  match a with
  | nil_any => "<nil>"
  | ptr_any _ => "*interface {}"
  | bool_any _ => "bool"
  | int_any Int16 _ => "int16"
  | int_any Int32 _ => "int32"
  | int_any Int64 _ => "int64"
  | string_any _ => "string"
  | bytes_any _ => "[]uint8"
  | array16_any _ => "[16]uint8"
  end.

Definition fmtBoolean (b : bool) : string := if b then "true" else "false".

(** A sequence printed element by element between brackets. *)
Definition bracketed (elems : list string) : string :=
  "[" +:+ String.concat " " elems +:+ "]".

Definition uint8_decimal (b : byte) : string := decimal (Z.of_N (Byte.to_N b)).

Definition printArg_v (a : any) : string :=
  match a with
  | nil_any => "<nil>"
  | ptr_any u => if u =? 0 then "<nil>" else "0x" +:+ hex u
  | bool_any b => fmtBoolean b
  | int_any _ n => decimal n
  | string_any s => s
  | bytes_any bs => bracketed (map uint8_decimal bs)
  | array16_any a => bracketed (map uint8_decimal (vec_to_list a))
  end.

(** [badVerb]: the marker fmt writes in place of a value the verb does
    not apply to. *)
Definition badVerb (v : verb) (a : any) : string :=
  match a with
  | nil_any => "%!" +:+ verb_rune v +:+ "(<nil>)"
  | _ => "%!" +:+ verb_rune v +:+ "(" +:+ type_name a +:+ "=" +:+ printArg_v a +:+ ")"
  end.

Definition badVerb_uint8 (v : verb) (b : byte) : string :=
  "%!" +:+ verb_rune v +:+ "(uint8=" +:+ uint8_decimal b +:+ ")".

Definition fmtInteger_x (n : Z) : string :=
  if n <? 0 then "-" +:+ hex (- n) else hex n.

Definition fmtBytes (bs : list byte) (v : verb) : string :=
  match v with
  | verb_v => bracketed (map uint8_decimal bs)
  | verb_s => string_of_bytes bs
  | verb_x => hex_bytes bs
  | verb_t => bracketed (map (badVerb_uint8 verb_t) bs)
  end.

Definition printArg (a : any) (v : verb) : string :=
  match v with
  | verb_v => printArg_v a
  | _ =>
      match a with
      | nil_any => badVerb v a
      | ptr_any u => match v with verb_x => hex u | _ => badVerb v a end
      | bool_any b => match v with verb_t => fmtBoolean b | _ => badVerb v a end
      | int_any _ n => match v with verb_x => fmtInteger_x n | _ => badVerb v a end
      | string_any s =>
          match v with
          | verb_s => s
          | verb_x => hex_bytes (bytes_of_string s)
          | _ => badVerb v a
          end
      | bytes_any bs => fmtBytes bs v
      | array16_any arr => fmtBytes (vec_to_list arr) v
      end
  end.

(** [fmt.Sprintf("%<verb>", a)] *)
Definition Sprintf (v : verb) (a : any) : string := printArg a v.

End fmt.

(** ** The UUID package *)

Module uuid.

(** [type UUID [Size]byte] with [Size = 16]. *)
Definition UUID : Type := vec byte 16.

Definition Nil : UUID := vreplicate 16 "000"%byte.

(** [UUID.String]: the canonical form, lowercase hexadecimal in groups of
    4, 2, 2, 2 and 6 bytes separated by hyphens. *)
Definition String (u : UUID) : string :=
  let b := vec_to_list u in
  fmt.hex_bytes (take 4 b) +:+ "-" +:+
  fmt.hex_bytes (take 2 (drop 4 b)) +:+ "-" +:+
  fmt.hex_bytes (take 2 (drop 6 b)) +:+ "-" +:+
  fmt.hex_bytes (take 2 (drop 8 b)) +:+ "-" +:+
  fmt.hex_bytes (drop 10 b).

(** Modelled from the spec: [uuid.FromBytes] belongs to the package
    github.com/gofrs/uuid/v5, which is not part of the program's source.
    It copies the input into a UUID and rejects only an input whose length
    is not 16, returning the zero UUID with the error. *)
Definition FromBytes (input : list byte) : UUID * option error :=
  match input with
  | [b0; b1; b2; b3; b4; b5; b6; b7; b8; b9; b10; b11; b12; b13; b14; b15] =>
      ([# b0; b1; b2; b3; b4; b5; b6; b7; b8; b9; b10; b11; b12; b13; b14; b15], None)
  | _ => (Nil, Some (IncorrectByteLength (length input)))
  end.

End uuid.

(** ** The driver's data *)

Module pgtype.
Definition BoolOID : Z := 16.
Definition Int4OID : Z := 23.
Definition TextOID : Z := 25.
Definition UUIDOID : Z := 2950.
End pgtype.

(** [pgconn.FieldDescription], the two fields the program reads. *)
Record FieldDescription := { Name : string; DataTypeOID : Z }.

(** What one call of [rows.Scan(scans...)] does: [stored !! i = Some (Some v)]
    when it stores [v] through [dest[i]], and the error it returns.
    [scans_addr] is the address of the slice [scans] made for the row. *)
Record RowRead := {
  stored : list (option any);
  scan_err : option error;
  scans_addr : Z
}.

(** [pgx.Rows]: the column descriptors and the rows for which [Next] reports
    true, in order. *)
Record Rows := {
  FieldDescriptions : list FieldDescription;
  stream : list RowRead
}.

Inductive context := context_Background | context_cli (id : nat).

(** [pgxpool.Config], with the nested connection configuration flattened. *)
Record Config := {
  MaxConns : Z;
  Host : string;
  Port : Z;
  Database : string;
  User : string;
  Password : string
}.

Inductive Pool := pool_handle (id : nat).
Inductive Tx := tx_handle (id : nat).

Definition tx_id (tx : Tx) : nat := match tx with tx_handle id => id end.

#[global] Instance Tx_eq_dec : EqDecision Tx := λ x y,
  match x, y with
  | tx_handle a, tx_handle b =>
      match decide (a = b) with
      | left H => left (f_equal tx_handle H)
      | right H => right (λ E : tx_handle a = tx_handle b, H (f_equal tx_id E))
      end
  end.

(** A run-time panic unwinds the function; deferred calls still run. *)
Inductive panic :=
| NilDereference
| InterfaceConversion (dynamic : string)   (* interface {} is [dynamic], not [16]uint8 *)
| IndexOutOfRange
| DriverPanic (msg : string).              (* a panic raised inside pgx *)

Inductive outcome (A : Type) :=
| Done (a : A)
| Panicked (p : panic).
Arguments Done {A} a.
Arguments Panicked {A} p.

(** How the driver answers each call the program makes.  [NewWithConfig] is
    given a configuration the program builds by hand, which the driver may
    refuse by a panic. *)
Record World := {
  pgxpool_New : context → string → Pool + error;
  pgxpool_NewWithConfig : context → Config → outcome (Pool + error);
  pool_Begin : Pool → context → option Tx * option error;
  tx_Query : Tx → context → string → Rows + error;
  tx_Commit : Tx → context → option error
}.

(** The calls made to the driver and to the table writer, in order. *)
Inductive event :=
| EvNew (ctx : context) (connString : string)
| EvNewWithConfig (ctx : context) (config : Config)
| EvClose (p : Pool)
| EvBegin (p : Pool) (ctx : context) (tx : option Tx)
| EvRollback (tx : Tx) (ctx : context)
| EvQuery (tx : Tx) (ctx : context) (sql : string)
| EvRender (header : list any) (body : list (list any))
| EvCommit (tx : Tx) (ctx : context) (err : option error).

(** A computation that leaves a trace of calls. *)
Definition traced (A : Type) : Type := outcome A * list event.

Definition emit (e : event) : traced unit := (Done tt, [e]).

#[global] Instance traced_ret : MRet traced := λ A a, (Done a, []).

#[global] Instance traced_bind : MBind traced := λ A B k m,
  match m with
  | (Done a, t) => let '(r, t') := k a in (r, t ++ t')
  | (Panicked p, t) => (Panicked p, t)
  end.

(** [defer call; body]: [call] runs when [body] returns or panics. *)
Definition defer {A} (call : event) (body : traced A) : traced A :=
  (fst body, snd body ++ [call]).

(** ** The program *)

Record connArgs := {
  host : string;
  port : string;
  user : string;
  password : string;
  database : string;
  url : string
}.

(** [uint16(port)] *)
Definition uint16 (n : Z) : Z := n mod 2 ^ 16.

Definition getConnPool (w : World) (ctx : context) (connArgs : connArgs)
  : traced (Pool + error) :=
  if negb (String.eqb (trim (url connArgs)) "") then
    (Done (pgxpool_New w context_Background (url connArgs)),
     [EvNew context_Background (url connArgs)])
  else
    let '(port, err) := strconv.Atoi (trim (port connArgs)) in
    match err with
    | Some err => (Done (inr err), [])
    | None =>
        let config := {|
          MaxConns := 10;
          Host := host connArgs;
          Port := uint16 port;
          Database := database connArgs;
          User := user connArgs;
          Password := password connArgs
        |} in
        (pgxpool_NewWithConfig w ctx config, [EvNewWithConfig ctx config])
    end.

Section Materializer.

(** The decoder [uuid.FromBytes], left open here and fixed to the
    package's own in [uuid.FromBytes]. *)
Variable FromBytes : list byte → uuid.UUID * option error.

(** The body of the inner loop of [scanRowsToMaps]: the display string of
    the value [v] scanned for a column of descriptor [field]. *)
Definition display_value (field : FieldDescription) (v : any) : outcome string :=
  match v with
  | nil_any => Done "null"
  | _ =>
      if DataTypeOID field =? pgtype.UUIDOID then
        match v with
        | array16_any arr =>
            let '(uuidVal, err) := FromBytes (vec_to_list arr) in
            match err with
            | Some _ => Done (fmt.Sprintf fmt.verb_x v)
            | None => Done (uuid.String uuidVal)
            end
        | _ => Panicked (InterfaceConversion (fmt.type_name v))
        end
      else if DataTypeOID field =? pgtype.BoolOID then
        Done (fmt.Sprintf fmt.verb_t v)
      else
        Done (fmt.Sprintf fmt.verb_s v)
  end.

(** [scans := make([]interface{}, len(fields))] followed by
    [scans[i] = &scans[i]]; an interface value takes 16 bytes. *)
Definition make_scans (addr : Z) (n : nat) : list any :=
  imap (λ i _, ptr_any (addr + 16 * Z.of_nat i)) (replicate n nil_any).

(** [rows.Scan(scans...)]: every [dest[i]] points at [scans[i]]. *)
Definition Scan (r : RowRead) (scans : list any) : list any * option error :=
  (imap (λ i slot, match stored r !! i with
                   | Some (Some v) => v
                   | _ => slot
                   end) scans,
   scan_err r).

(** [for i, v := range scans { ... row[fields[i].Name] = value }], from
    index [i] on. *)
Fixpoint range_scans (fields : list FieldDescription) (i : nat) (scans : list any)
    (row : gmap string any) : outcome (gmap string any) :=
  match scans with
  | [] => Done row
  | v :: scans' =>
      match fields !! i with
      | None => Panicked IndexOutOfRange
      | Some field =>
          match display_value field v with
          | Panicked p => Panicked p
          | Done value =>
              range_scans fields (S i) scans' (<[Name field := string_any value]> row)
          end
      end
  end.

(** [for rows.Next() { ... rowMaps = append(rowMaps, row) }] *)
Fixpoint next_rows (fields : list FieldDescription) (rs : list RowRead)
    (rowMaps : list (gmap string any)) : outcome (list (gmap string any)) :=
  match rs with
  | [] => Done rowMaps
  | r :: rs' =>
      let scans := make_scans (scans_addr r) (length fields) in
      let '(scans, _) := Scan r scans in
      match range_scans fields 0 scans ∅ with
      | Panicked p => Panicked p
      | Done row => next_rows fields rs' (rowMaps ++ [row])
      end
  end.

Definition scanRowsToMaps (rows : Rows) : outcome (list (gmap string any)) :=
  let fields := FieldDescriptions rows in
  next_rows fields (stream rows) [].

(** [row = append(row, val[field.Name])] over the descriptors; a missing
    key reads as the nil interface. *)
Definition table_row (fields : list FieldDescription) (val : gmap string any) : list any :=
  map (λ field, default nil_any (val !! Name field)) fields.

Definition table_header (fields : list FieldDescription) : list any :=
  map (λ v, string_any (Name v)) fields.

Definition execCommand (w : World) (ctx : context) (connArgs : connArgs) (sql : string)
  : traced (option error) :=
  pool ← getConnPool w ctx connArgs;
  match pool with
  | inr err => mret (Some err)
  | inl pool =>
      defer (EvClose pool) (
        let '(tx, err) := pool_Begin w pool ctx in
        emit (EvBegin pool ctx tx);;
        match tx with
        | None => (Panicked NilDereference, [])
        | Some tx =>
            defer (EvRollback tx ctx) (
              match err with
              | Some err => mret (Some err)
              | None =>
                  emit (EvQuery tx ctx sql);;
                  match tx_Query w tx ctx sql with
                  | inr err => mret (Some err)
                  | inl res =>
                      vals ← (scanRowsToMaps res, []);
                      let header := table_header (FieldDescriptions res) in
                      let body := map (table_row (FieldDescriptions res)) vals in
                      emit (EvRender header body);;
                      let err := tx_Commit w tx ctx in
                      emit (EvCommit tx ctx err);;
                      match err with
                      | Some err => mret (Some err)
                      | None => mret None
                      end
                  end
              end)
        end)
  end.

End Materializer.

(** The slots of [scans] after [rows.Scan(scans...)] for the row [r]. *)
Definition scanned_values (fields : list FieldDescription) (r : RowRead) : list any :=
  fst (Scan r (make_scans (scans_addr r) (length fields))).

(** The values pgx delivers for a column of type [uuid] are [[16]uint8] or
    nil; the assertion [v.([16]uint8)] takes nothing else. *)
Definition uuid_slot_ok (field : FieldDescription) (v : any) : bool :=
  if DataTypeOID field =? pgtype.UUIDOID then
    match v with
    | nil_any | array16_any _ => true
    | _ => false
    end
  else true.

Fixpoint slots_ok (fields : list FieldDescription) (scans : list any) : bool :=
  match fields, scans with
  | [], [] => true
  | field :: fields', v :: scans' => uuid_slot_ok field v && slots_ok fields' scans'
  | _, _ => false
  end.

Definition well_typed (rows : Rows) : bool :=
  forallb (λ r, slots_ok (FieldDescriptions rows) (scanned_values (FieldDescriptions rows) r))
    (stream rows).

(** The program with the decoder of the UUID package. *)
Definition pgexec (w : World) (ctx : context) (args : connArgs) (sql : string)
  : traced (option error) :=
  execCommand uuid.FromBytes w ctx args sql.

(** [main]: an error returned by the action ends the process through
    [log.Fatal] with status 1; a panic nothing recovers ends it with status
    2. *)
Definition exit_status (r : outcome (option error)) : Z :=
  match r with
  | Done None => 0
  | Done (Some _) => 1
  | Panicked _ => 2
  end.

(** ** The state of the transaction along a trace

    A transaction is open from a [Begin] that returned it until a [Commit]
    that succeeded or a [Rollback] on it; a failed [Commit] is taken to
    leave it open. *)

Inductive tx_state :=
| NoTx
| Open (tx : Tx)
| Committed (tx : Tx)
| RolledBack (tx : Tx).

Definition tx_step (st : tx_state) (e : event) : tx_state :=
  match e with
  | EvBegin _ _ (Some tx) => Open tx
  | EvCommit tx _ None =>
      match st with
      | Open tx' => if decide (tx = tx') then Committed tx else st
      | _ => st
      end
  | EvRollback tx _ =>
      match st with
      | Open tx' => if decide (tx = tx') then RolledBack tx else st
      | _ => st
      end
  | _ => st
  end.

Definition tx_final (t : list event) : tx_state := foldl tx_step NoTx t.

(** A transaction was begun: some [Begin] returned a handle. *)
Definition tx_begun (t : list event) : Prop :=
  ∃ p ctx tx, EvBegin p ctx (Some tx) ∈ t.

(** ** Port syntax, as the specification words it *)

Module PortSyntax.

Fixpoint digits_value (s : string) (acc : Z) : option Z :=
  match s with
  | "" => Some acc
  | String c s' =>
      if strconv.is_digit c
      then digits_value s' (acc * 10 + (strconv.byte_of c - 48))
      else None
  end.

(** One or more decimal digits. *)
Definition unsigned_decimal (s : string) : option Z :=
  match s with
  | "" => None
  | _ => digits_value s 0
  end.

(** An optional sign followed by one or more decimal digits. *)
Definition signed_decimal (s : string) : option Z :=
  match s with
  | String c rest =>
      if Ascii.eqb c "+" then unsigned_decimal rest
      else if Ascii.eqb c "-" then Z.opp <$> unsigned_decimal rest
      else unsigned_decimal s
  | "" => None
  end.

(** The text parses as an unsigned 16-bit integer. *)
Definition parse_uint16 (s : string) : option Z :=
  match unsigned_decimal s with
  | Some v => if v <=? 65535 then Some v else None
  | None => None
  end.

(** The text parses as an integer of Go's type [int]. *)
Definition parse_int (s : string) : option Z :=
  match signed_decimal s with
  | Some v => if (- 2 ^ 63 <=? v) && (v <? 2 ^ 63) then Some v else None
  | None => None
  end.

End PortSyntax.

(** ** Lowercase hexadecimal text, as it is read back *)

Module Hex.



End Hex.

(** ** Scenarios *)

Module Scenario.

Definition ctx : context := context_cli 0.

Definition by_url : connArgs :=
  {| host := ""; port := ""; user := ""; password := ""; database := "";
     url := "postgres://app@localhost:5432/app" |}.

Definition by_fields (p : string) : connArgs :=
  {| host := "localhost"; port := p; user := "app"; password := "secret";
     database := "app"; url := "" |}.

(** A driver that accepts everything and answers every query with [res]. *)
Definition serving (res : Rows) : World := {|
  pgxpool_New := λ _ _, inl (pool_handle 1);
  pgxpool_NewWithConfig := λ _ _, Done (inl (pool_handle 1));
  pool_Begin := λ _ _, (Some (tx_handle 1), None);
  tx_Query := λ _ _ _, inl res;
  tx_Commit := λ _ _, None
|}.

(** A driver whose pool cannot begin a transaction. *)
Definition no_begin : World := {|
  pgxpool_New := λ _ _, inl (pool_handle 1);
  pgxpool_NewWithConfig := λ _ _, Done (inl (pool_handle 1));
  pool_Begin := λ _ _, (None, Some (DriverError "failed to connect"));
  tx_Query := λ _ _ _, inr (DriverError "unreachable");
  tx_Commit := λ _ _, None
|}.

Definition scans_at : Z := 824633802800.

Definition delivered (vals : list any) : RowRead :=
  {| stored := Some <$> vals; scan_err := None; scans_addr := scans_at |}.

(** [SELECT 1 AS n, true AS b, NULL AS x;] as pgx delivers it: an [int4]
    column decoded to [int32], a [bool] column, a null. *)
Definition select_1_true_null : Rows := {|
  FieldDescriptions := [ {| Name := "n"; DataTypeOID := pgtype.Int4OID |};
                         {| Name := "b"; DataTypeOID := pgtype.BoolOID |};
                         {| Name := "x"; DataTypeOID := pgtype.TextOID |} ];
  stream := [ delivered [int_any Int32 1; bool_any true; nil_any] ]
|}.

Definition scan_message : string :=
  "can't scan into dest[0]: cannot scan unknown type (OID 16385) in text format"
  +:+ " into *interface {}".

(** [SELECT mood FROM person;] where [mood] has an enumerated type, whose
    OID pgx does not know: [Scan] fails on the column and stores nothing. *)
Definition failing_scan : Rows := {|
  FieldDescriptions := [ {| Name := "mood"; DataTypeOID := 16385 |} ];
  stream := [ {| stored := [];
                 scan_err := Some (DriverError scan_message);
                 scans_addr := scans_at |} ]
|}.

(** [SELECT 1 AS a, 'x' AS a;] *)
Definition same_name : Rows := {|
  FieldDescriptions := [ {| Name := "a"; DataTypeOID := pgtype.Int4OID |};
                         {| Name := "a"; DataTypeOID := pgtype.TextOID |} ];
  stream := [ delivered [int_any Int32 1; string_any "x"] ]
|}.

(** [SELECT true AS a, 1 AS a;]: a [bool] column and an [int4] column of
    one name. *)
Definition bool_then_int : Rows := {|
  FieldDescriptions := [ {| Name := "a"; DataTypeOID := pgtype.BoolOID |};
                         {| Name := "a"; DataTypeOID := pgtype.Int4OID |} ];
  stream := [ delivered [bool_any true; int_any Int32 1] ]
|}.

(** [SELECT mood, active FROM person;] where [mood] has an enumerated type
    and [active] is a [bool]: [Scan] fails on the first column and returns
    before it reaches the second, so neither slot is written. *)
Definition mood_active : Rows := {|
  FieldDescriptions := [ {| Name := "mood"; DataTypeOID := 16385 |};
                         {| Name := "active"; DataTypeOID := pgtype.BoolOID |} ];
  stream := [ {| stored := [];
                 scan_err := Some (DriverError scan_message);
                 scans_addr := scans_at |} ]
|}.

Definition some_uuid : uuid.UUID :=
  [# "018"; "052"; "086"; "120"; "154"; "188"; "222"; "240";
     "001"; "035"; "069"; "103"; "137"; "171"; "205"; "239"]%byte.


End Scenario.

(** ** Blank text and the ends of a text *)

Module Text.

Fixpoint all_in (set s : string) : bool :=
  match s with
  | "" => true
  | String c s' => gostrings.contains set c && all_in set s'
  end.

Definition blank (s : string) : bool := all_in gostrings.cutset s.

Definition first_byte (s : string) : option ascii :=
  match s with
  | "" => None
  | String c _ => Some c
  end.

Fixpoint last_byte (s : string) : option ascii :=
  match s with
  | "" => None
  | String c "" => Some c
  | String _ s' => last_byte s'
  end.

End Text.

(** The discrete fields as the resolver hands them to the driver. *)
Definition config_of (a : connArgs) (n : Z) : Config :=
  {| MaxConns := 10; Host := host a; Port := n mod 2 ^ 16; Database := database a;
     User := user a; Password := password a |}.

(** The same fields with no url. *)
Definition without_url (a : connArgs) : connArgs :=
  {| host := host a; port := port a; user := user a; password := password a;
     database := database a; url := "" |}.

(** ** Row maps and cells *)

(** The cell holds a string. *)
Definition is_string (v : any) : bool :=
  match v with
  | string_any _ => true
  | _ => false
  end.

(** The names of the columns, in order. *)
Definition column_names (fields : list FieldDescription) : list string := Name <$> fields.

(** ** Kinds of calls in a trace *)

Definition is_begin (e : event) : bool :=
  match e with EvBegin _ _ _ => true | _ => false end.
Definition is_close (e : event) : bool :=
  match e with EvClose _ => true | _ => false end.
Definition is_rollback (e : event) : bool :=
  match e with EvRollback _ _ => true | _ => false end.
Definition is_query (e : event) : bool :=
  match e with EvQuery _ _ _ => true | _ => false end.
Definition is_render (e : event) : bool :=
  match e with EvRender _ _ => true | _ => false end.
Definition is_commit (e : event) : bool :=
  match e with EvCommit _ _ _ => true | _ => false end.

(** How many calls of a kind a trace holds. *)
Definition count_events (p : event → bool) (t : list event) : nat :=
  length (List.filter p t).

(** The runs of [execCommand], by the point at which they end. *)
Inductive Run (FromBytes : list byte → uuid.UUID * option error)
    (w : World) (ctx : context) (a : connArgs) (sql : string)
  : traced (option error) → Prop :=
| run_resolver_error e t :
    getConnPool w ctx a = (Done (inr e), t) →
    Run FromBytes w ctx a sql (Done (Some e), t)
| run_resolver_panic p t :
    getConnPool w ctx a = (Panicked p, t) →
    Run FromBytes w ctx a sql (Panicked p, t)
| run_no_transaction pool t err :
    getConnPool w ctx a = (Done (inl pool), t) →
    pool_Begin w pool ctx = (None, err) →
    Run FromBytes w ctx a sql
      (Panicked NilDereference, t ++ [EvBegin pool ctx None; EvClose pool])
| run_begin_error pool t tx e :
    getConnPool w ctx a = (Done (inl pool), t) →
    pool_Begin w pool ctx = (Some tx, Some e) →
    Run FromBytes w ctx a sql
      (Done (Some e),
       t ++ [EvBegin pool ctx (Some tx); EvRollback tx ctx; EvClose pool])
| run_query_error pool t tx e :
    getConnPool w ctx a = (Done (inl pool), t) →
    pool_Begin w pool ctx = (Some tx, None) →
    tx_Query w tx ctx sql = inr e →
    Run FromBytes w ctx a sql
      (Done (Some e),
       t ++ [EvBegin pool ctx (Some tx); EvQuery tx ctx sql; EvRollback tx ctx;
             EvClose pool])
| run_scan_panic pool t tx res p :
    getConnPool w ctx a = (Done (inl pool), t) →
    pool_Begin w pool ctx = (Some tx, None) →
    tx_Query w tx ctx sql = inl res →
    scanRowsToMaps FromBytes res = Panicked p →
    Run FromBytes w ctx a sql
      (Panicked p,
       t ++ [EvBegin pool ctx (Some tx); EvQuery tx ctx sql; EvRollback tx ctx;
             EvClose pool])
| run_rendered pool t tx res vals :
    getConnPool w ctx a = (Done (inl pool), t) →
    pool_Begin w pool ctx = (Some tx, None) →
    tx_Query w tx ctx sql = inl res →
    scanRowsToMaps FromBytes res = Done vals →
    Run FromBytes w ctx a sql
      (Done (tx_Commit w tx ctx),
       t ++ [EvBegin pool ctx (Some tx); EvQuery tx ctx sql;
             EvRender (table_header (FieldDescriptions res))
               (map (table_row (FieldDescriptions res)) vals);
             EvCommit tx ctx (tx_Commit w tx ctx); EvRollback tx ctx; EvClose pool]).

(** ** Further scenarios *)

Module Cases.

(** [SELECT id, name FROM person;] with a [uuid] column: one row with a
    value, one with a null. *)
Definition people : Rows := {|
  FieldDescriptions := [ {| Name := "id"; DataTypeOID := pgtype.UUIDOID |};
                         {| Name := "name"; DataTypeOID := pgtype.TextOID |} ];
  stream := [ Scenario.delivered [array16_any Scenario.some_uuid; string_any "ada"];
              Scenario.delivered [nil_any; string_any "bob"] ]
|}.

(** The two row maps of [people]. *)
Definition people_maps : list (gmap string any) :=
  [ {[ "id" := string_any "12345678-9abc-def0-0123-456789abcdef";
       "name" := string_any "ada" ]};
    {[ "id" := string_any "null"; "name" := string_any "bob" ]} ].

(** A [uuid] column on which [Scan] fails, leaving the slot as it was. *)
Definition unscanned_uuid : Rows := {|
  FieldDescriptions := [ {| Name := "id"; DataTypeOID := pgtype.UUIDOID |} ];
  stream := [ {| stored := [];
                 scan_err := Some (DriverError "can't scan into dest[0]");
                 scans_addr := Scenario.scans_at |} ]
|}.

End Cases.

Module Worlds.

(** A driver on which the statement fails. *)
Definition failing_query : World := {|
  pgxpool_New := λ _ _, inl (pool_handle 1);
  pgxpool_NewWithConfig := λ _ _, Done (inl (pool_handle 1));
  pool_Begin := λ _ _, (Some (tx_handle 1), None);
  tx_Query := λ _ _ _, inr (DriverError "ERROR: syntax error at or near SELEC");
  tx_Commit := λ _ _, None
|}.

End Worlds.

(** * Properties *)

(** ** The library models on sample inputs *)

Example Atoi_5432 : strconv.Atoi "5432" = (5432, None).
Proof. reflexivity. Qed.

Example Atoi_neg : strconv.Atoi "-1" = (-1, None).
Proof. reflexivity. Qed.

Example Atoi_abc : strconv.Atoi "abc" = (0, Some (NumError "Atoi" "abc" ErrSyntax)).
Proof. reflexivity. Qed.

Example Atoi_big : strconv.Atoi "9223372036854775808"
  = (9223372036854775807, Some (NumError "Atoi" "9223372036854775808" ErrRange)).
Proof. vm_compute. reflexivity. Qed.

Example Atoi_min : strconv.Atoi "-9223372036854775808" = (-9223372036854775808, None).
Proof. vm_compute. reflexivity. Qed.

Example trim_ex : trim (String "009" " 54 32 " +:+ String "010" "") = "54 32".
Proof. reflexivity. Qed.

Example Sprintf_s_int32 : fmt.Sprintf fmt.verb_s (int_any Int32 1) = "%!s(int32=1)".
Proof. reflexivity. Qed.

Example Sprintf_t_true : fmt.Sprintf fmt.verb_t (bool_any true) = "true".
Proof. reflexivity. Qed.

Example Sprintf_s_ptr :
  fmt.Sprintf fmt.verb_s (ptr_any 824633802800) = "%!s(*interface {}=0xc000014030)".
Proof. reflexivity. Qed.

Example Sprintf_x_bytes : fmt.Sprintf fmt.verb_x (bytes_any ["000"; "010"; "255"]%byte) = "000aff".
Proof. reflexivity. Qed.

Example uuid_String_ex :
  uuid.String [# "018"; "052"; "086"; "120"; "154"; "188"; "222"; "240";
                 "001"; "035"; "069"; "103"; "137"; "171"; "205"; "239"]%byte
  = "12345678-9abc-def0-0123-456789abcdef".
Proof. reflexivity. Qed.

(** ** Auxiliary facts *)

Lemma negb_eqb_nonempty (s : string) : s ≠ "" → negb (String.eqb s "") = true.
Proof. intros H. by destruct (String.eqb_spec s ""). Qed.

Lemma eqb_empty (s : string) : s = "" → negb (String.eqb s "") = false.
Proof. by intros ->. Qed.

Ltac not_in_trace H :=
  repeat (apply elem_of_cons in H as [H | H]; [discriminate H |]);
  by apply elem_of_nil in H.

(** The resolver leaves one call at most in its trace, and none when it
    returns an error of its own. *)
Lemma getConnPool_trace (w : World) (ctx : context) (a : connArgs) :
  snd (getConnPool w ctx a) = [] ∨
  (∃ c s, snd (getConnPool w ctx a) = [EvNew c s]) ∨
  (∃ c cfg, snd (getConnPool w ctx a) = [EvNewWithConfig c cfg]).
Proof.
  unfold getConnPool.
  destruct (negb _); [right; left; eauto |].
  destruct (strconv.Atoi _) as [n [e |]]; [by left | right; right; eauto].
Qed.

Lemma getConnPool_trace_no_tx (w : World) (ctx : context) (a : connArgs) (st : tx_state) :
  foldl tx_step st (snd (getConnPool w ctx a)) = st.
Proof.
  by destruct (getConnPool_trace w ctx a) as [-> | [(c & s & ->) | (c & cfg & ->)]].
Qed.

Lemma getConnPool_trace_no_begin (w : World) (ctx : context) (a : connArgs) p c tx :
  EvBegin p c (Some tx) ∉ snd (getConnPool w ctx a).
Proof.
  intros H.
  destruct (getConnPool_trace w ctx a) as [Ht | [(c' & s & Ht) | (c' & cfg & Ht)]];
    rewrite Ht in H; not_in_trace H.
Qed.

Lemma length_scanned_values (fields : list FieldDescription) (r : RowRead) :
  length (scanned_values fields r) = length fields.
Proof.
  unfold scanned_values, Scan, make_scans. cbn.
  by rewrite !length_imap, length_replicate.
Qed.

Section RowMaps.

Variable FromBytes : list byte → uuid.UUID * option error.
Variable fields : list FieldDescription.

(** A name no remaining column carries keeps its entry. *)
Lemma range_scans_other (scans : list any) :
  ∀ (i : nat) (row row' : gmap string any) (name : string),
  range_scans FromBytes fields i scans row = Done row' →
  (∀ (j : nat) f, (j < length scans)%nat → fields !! (i + j)%nat = Some f →
     Name f ≠ name) →
  row' !! name = row !! name.
Proof.
  induction scans as [| v scans IH]; intros i row row' name Hrun Hother; cbn in Hrun.
  - by inversion Hrun.
  - destruct (fields !! i) as [f |] eqn:Hf; [| done].
    destruct (display_value FromBytes f v) as [value | p]; [| done].
    rewrite (IH _ _ _ name Hrun).
    + apply lookup_insert_ne. apply (Hother 0%nat); [cbn; lia |]. by rewrite Nat.add_0_r.
    + intros j f' Hj Hf'. apply (Hother (S j)); [cbn; lia |].
      by replace (i + S j)%nat with (S i + j)%nat by lia.
Qed.

(** The entry of a name is the display string of the last column carrying
    it. *)
Lemma range_scans_last (scans : list any) :
  ∀ (i : nat) (row row' : gmap string any) (k : nat) fk vk,
  range_scans FromBytes fields i scans row = Done row' →
  scans !! k = Some vk →
  fields !! (i + k)%nat = Some fk →
  (∀ (k' : nat) f, (k < k' < length scans)%nat → fields !! (i + k')%nat = Some f →
     Name f ≠ Name fk) →
  ∃ s, display_value FromBytes fk vk = Done s ∧ row' !! Name fk = Some (string_any s).
Proof.
  induction scans as [| v scans IH]; intros i row row' k fk vk Hrun Hk Hfk Hlast; [done |].
  cbn in Hrun.
  destruct (fields !! i) as [f |] eqn:Hf; [| done].
  destruct (display_value FromBytes f v) as [value | p] eqn:Hv; [| done].
  destruct k as [| k]; cbn in Hk.
  - inversion Hk; subst vk. rewrite Nat.add_0_r, Hf in Hfk. inversion Hfk; subst fk.
    exists value. split; [done |].
    rewrite (range_scans_other _ _ _ _ _ Hrun).
    + apply lookup_insert_eq.
    + intros j f' Hj Hf'. apply (Hlast (S j)); [cbn; lia |].
      by replace (i + S j)%nat with (S i + j)%nat by lia.
  - apply (IH _ _ _ k fk vk Hrun Hk).
    + by replace (S i + k)%nat with (i + S k)%nat by lia.
    + intros k' f' Hk' Hf'. apply (Hlast (S k')); [cbn; lia |].
      by replace (i + S k')%nat with (S i + k')%nat by lia.
Qed.

Lemma next_rows_cons (r : RowRead) (rs : list RowRead) (acc : list (gmap string any)) :
  next_rows FromBytes fields (r :: rs) acc
  = match range_scans FromBytes fields 0 (scanned_values fields r) ∅ with
    | Panicked p => Panicked p
    | Done row => next_rows FromBytes fields rs (acc ++ [row])
    end.
Proof. reflexivity. Qed.

(** One map per row of the cursor, in order. *)
Lemma next_rows_rows (rs : list RowRead) :
  ∀ acc vals,
  next_rows FromBytes fields rs acc = Done vals →
  ∃ rows', vals = acc ++ rows' ∧
    Forall2 (λ r row, range_scans FromBytes fields 0 (scanned_values fields r) ∅ = Done row)
      rs rows'.
Proof.
  induction rs as [| r rs IH]; intros acc vals Hrun.
  - inversion Hrun. exists []. by rewrite app_nil_r.
  - rewrite next_rows_cons in Hrun.
    destruct (range_scans FromBytes fields 0 (scanned_values fields r) ∅)
      as [row | p] eqn:Hr; [| done].
    destruct (IH _ _ Hrun) as (rows' & -> & Hall).
    exists (row :: rows'). split; [by rewrite <- app_assoc |]. by constructor.
Qed.

End RowMaps.

Lemma scanRowsToMaps_row FromBytes (rows : Rows) vals (r : nat) (rr : RowRead) :
  scanRowsToMaps FromBytes rows = Done vals →
  stream rows !! r = Some rr →
  ∃ row, vals !! r = Some row ∧
    range_scans FromBytes (FieldDescriptions rows) 0
      (scanned_values (FieldDescriptions rows) rr) ∅ = Done row.
Proof.
  unfold scanRowsToMaps. intros Hrun Hr.
  destruct (next_rows_rows _ _ _ _ _ Hrun) as (rows' & -> & Hall). cbn.
  destruct (Forall2_lookup_l _ _ _ _ _ Hall Hr) as (row & Hrow & Hdone).
  by exists row.
Qed.

Lemma table_row_lookup (fields : list FieldDescription) (row : gmap string any) (j : nat) fj :
  fields !! j = Some fj →
  table_row fields row !! j = Some (default nil_any (row !! Name fj)).
Proof. intros Hj. unfold table_row. by rewrite list_lookup_fmap, Hj. Qed.

(** The cell rendered for column [j] of row [r] is the display string of
    the value of the last column [k] that carries the name of column [j]. *)
Lemma rendered_cell FromBytes (rows : Rows) vals (r : nat) (rr : RowRead)
    (j k : nat) (fj fk : FieldDescription) (vk : any) :
  scanRowsToMaps FromBytes rows = Done vals →
  stream rows !! r = Some rr →
  FieldDescriptions rows !! j = Some fj →
  FieldDescriptions rows !! k = Some fk →
  Name fk = Name fj →
  (∀ (k' : nat) f, (k < k')%nat → FieldDescriptions rows !! k' = Some f →
     Name f ≠ Name fj) →
  scanned_values (FieldDescriptions rows) rr !! k = Some vk →
  ∃ row s,
    vals !! r = Some row ∧
    display_value FromBytes fk vk = Done s ∧
    row !! Name fj = Some (string_any s) ∧
    table_row (FieldDescriptions rows) row !! j = Some (string_any s).
Proof.
  intros Hrun Hr Hj Hk Hname Hlast Hvk.
  destruct (scanRowsToMaps_row _ _ _ _ _ Hrun Hr) as (row & Hrow & Hdone).
  destruct (range_scans_last _ _ _ _ _ _ _ _ _ Hdone Hvk Hk) as (s & Hs & Hlook).
  { intros k' f [Hlt _] Hf. rewrite Hname. by apply (Hlast k'). }
  exists row, s. rewrite <- Hname.
  repeat split; [done | done | done |].
  by rewrite (table_row_lookup _ _ _ _ Hj), <- Hname, Hlook.
Qed.

Lemma display_value_total FromBytes (f : FieldDescription) (v : any) :
  uuid_slot_ok f v = true → ∃ s, display_value FromBytes f v = Done s.
Proof.
  unfold uuid_slot_ok, display_value.
  destruct (DataTypeOID f =? pgtype.UUIDOID).
  - destruct v; try done; eauto.
    intros _. destruct (FromBytes _) as [u [e |]]; eauto.
  - intros _. destruct v; destruct (DataTypeOID f =? pgtype.BoolOID); eauto.
Qed.

Lemma range_scans_total FromBytes (fs : list FieldDescription) :
  ∀ (scans : list any) (pre : list FieldDescription) (row : gmap string any),
  slots_ok fs scans = true →
  ∃ row', range_scans FromBytes (pre ++ fs) (length pre) scans row = Done row'.
Proof.
  induction fs as [| f fs IH]; intros [| v scans] pre row Hok; try done.
  - by exists row.
  - cbn in Hok. apply andb_true_iff in Hok as [Hv Hok]. cbn.
    rewrite lookup_app_r, Nat.sub_diag by lia. cbn.
    destruct (display_value_total FromBytes f v Hv) as [s ->].
    specialize (IH scans (pre ++ [f]) (<[Name f := string_any s]> row) Hok).
    by rewrite <- app_assoc, length_app, Nat.add_1_r in IH.
Qed.

Lemma next_rows_total FromBytes (fields : list FieldDescription) (rs : list RowRead) :
  ∀ acc,
  forallb (λ r, slots_ok fields (scanned_values fields r)) rs = true →
  ∃ vals, next_rows FromBytes fields rs acc = Done vals.
Proof.
  induction rs as [| r rs IH]; intros acc Hok.
  - by exists acc.
  - cbn in Hok. apply andb_true_iff in Hok as [Hr Hok].
    rewrite next_rows_cons.
    destruct (range_scans_total FromBytes fields _ [] ∅ Hr) as [row Hrow].
    change (range_scans FromBytes fields 0 (scanned_values fields r) ∅ = Done row) in Hrow.
    rewrite Hrow. by apply IH.
Qed.

Lemma scanRowsToMaps_total FromBytes (rows : Rows) :
  well_typed rows = true → ∃ vals, scanRowsToMaps FromBytes rows = Done vals.
Proof. apply next_rows_total. Qed.


(** What the table writer is given: the names of the descriptors, and for
    every row map the entries of those names in the order of the descriptors. *)
Lemma execCommand_renders FromBytes (w : World) (ctx : context) (a : connArgs)
    (sql : string) (pool : Pool) (t : list event) (tx : Tx) (res : Rows) vals :
  getConnPool w ctx a = (Done (inl pool), t) →
  pool_Begin w pool ctx = (Some tx, None) →
  tx_Query w tx ctx sql = inl res →
  scanRowsToMaps FromBytes res = Done vals →
  execCommand FromBytes w ctx a sql
  = (Done (tx_Commit w tx ctx),
     t ++ [ EvBegin pool ctx (Some tx);
            EvQuery tx ctx sql;
            EvRender (table_header (FieldDescriptions res))
              (map (table_row (FieldDescriptions res)) vals);
            EvCommit tx ctx (tx_Commit w tx ctx);
            EvRollback tx ctx;
            EvClose pool ]).
Proof.
  intros Hp Hb Hq Hvals.
  unfold execCommand, defer. rewrite Hp. cbn. rewrite Hb. cbn. rewrite Hq. cbn.
  rewrite Hvals. cbn. by destruct (tx_Commit w tx ctx).
Qed.



Lemma length_hex_bytes (bs : list byte) :
  String.length (fmt.hex_bytes bs) = (2 * length bs)%nat.
Proof.
  induction bs as [| b bs IH]; [done |].
  change (S (S (String.length (fmt.hex_bytes bs))) = (2 * S (length bs))%nat).
  rewrite IH. lia.
Qed.

Lemma uuid_FromBytes_vec (arr : uuid.UUID) : uuid.FromBytes (vec_to_list arr) = (arr, None).
Proof. unfold uuid.UUID in arr. inv_vec arr. intros. reflexivity. Qed.

Lemma uuid_FromBytes_length (input : list byte) :
  snd (uuid.FromBytes input) = None ↔ length input = 16%nat.
Proof.
  unfold uuid.FromBytes.
  do 16 (destruct input as [| ? input]; [by split |]).
  destruct input; cbn; split; (done || lia).
Qed.

Lemma length_uuid_String (u : uuid.UUID) : String.length (uuid.String u) = 36%nat.
Proof. unfold uuid.UUID in u. inv_vec u. intros. reflexivity. Qed.

(** ** strconv.Atoi against the port syntax *)

Section AtoiFacts.

Import strconv PortSyntax.

Lemma byte_of_range (c : ascii) : 0 ≤ byte_of c < 256.
Proof.
  unfold byte_of. pose proof (N_ascii_bounded c). lia.
Qed.

Lemma is_digit_spec (c : ascii) : is_digit c = true ↔ 48 ≤ byte_of c ≤ 57.
Proof. unfold is_digit. rewrite andb_true_iff, !Z.leb_le. done. Qed.

Lemma Atoi_loop_digits_value (s : string) : ∀ n, Atoi_loop s n = digits_value s n.
Proof.
  induction s as [| c s IH]; intros n; [done |]. cbn.
  pose proof (byte_of_range c) as Hc.
  destruct (is_digit c) eqn:Hd.
  - apply is_digit_spec in Hd.
    rewrite Z.mod_small by lia.
    destruct (Z.ltb_spec 9 (byte_of c - 48)); [lia |]. apply IH.
  - assert (Hn : ¬ (48 ≤ byte_of c ≤ 57)) by (rewrite <- is_digit_spec; congruence).
    destruct (Z.ltb_spec 9 ((byte_of c - 48) mod 256)) as [| Hle]; [done |].
    exfalso. destruct (Z.lt_ge_cases (byte_of c) 48).
    + assert (Hm : (byte_of c - 48) mod 256 = byte_of c + 208).
      { symmetry. apply (Z.mod_unique _ _ (-1)); lia. }
      lia.
    + rewrite Z.mod_small in Hle by lia. lia.
Qed.

Lemma digits_value_bounds (s : string) : ∀ acc v,
  digits_value s acc = Some v →
  0 ≤ acc →
  acc * 10 ^ Z.of_nat (String.length s) ≤ v < (acc + 1) * 10 ^ Z.of_nat (String.length s).
Proof.
  induction s as [| c s IH]; intros acc v Hv Hacc.
  - inversion Hv. cbn. lia.
  - cbn in Hv. destruct (is_digit c) eqn:Hd; [| done].
    apply is_digit_spec in Hd.
    apply IH in Hv; [| lia].
    change (String.length (String c s)) with (S (String.length s)).
    rewrite Nat2Z.inj_succ, Z.pow_succ_r by lia.
    assert (0 < 10 ^ Z.of_nat (String.length s)) by (apply Z.pow_pos_nonneg; lia).
    nia.
Qed.

Lemma pow_2_64 : 2 ^ 64 = 18446744073709551616.
Proof. reflexivity. Qed.

Lemma ParseUint_loop_spec (s : string) : ∀ n,
  0 ≤ n < 2 ^ 64 →
  match digits_value s n with
  | Some v =>
      ParseUint_loop s n = if v <? 2 ^ 64 then (v, None) else (maxUint64, Some ErrRange)
  | None =>
      ParseUint_loop s n = (0, Some ErrSyntax) ∨
      ParseUint_loop s n = (maxUint64, Some ErrRange)
  end.
Proof.
  induction s as [| c s IH]; intros n Hn.
  - cbn. destruct (Z.ltb_spec n (2 ^ 64)); [done | lia].
  - cbn. destruct (is_digit c) eqn:Hd; [| by left].
    apply is_digit_spec in Hd.
    unfold maxUint64 in *. rewrite pow_2_64 in *.
    change ((18446744073709551616 - 1) / 10 + 1) with 1844674407370955162.
    destruct (Z.leb_spec 1844674407370955162 n) as [Hcut | Hcut].
    { destruct (digits_value s _) as [v |] eqn:Hv; [| by right].
      apply digits_value_bounds in Hv; [| lia].
      assert (0 < 10 ^ Z.of_nat (String.length s)) by (apply Z.pow_pos_nonneg; lia).
      destruct (Z.ltb_spec v 18446744073709551616); [nia | done]. }
    destruct (Z.lt_ge_cases (n * 10 + (byte_of c - 48)) 18446744073709551616) as [Hfit | Hover].
    + rewrite Z.mod_small by lia.
      destruct (Z.ltb_spec (n * 10 + (byte_of c - 48)) (n * 10)); [lia |].
      destruct (Z.ltb_spec (18446744073709551616 - 1) (n * 10 + (byte_of c - 48))); [lia |].
      cbn. apply IH. lia.
    + assert (Hm : (n * 10 + (byte_of c - 48)) mod 18446744073709551616
                   = n * 10 + (byte_of c - 48) - 18446744073709551616).
      { symmetry. apply (Z.mod_unique _ _ 1); lia. }
      rewrite Hm.
      destruct (Z.ltb_spec (n * 10 + (byte_of c - 48) - 18446744073709551616) (n * 10));
        [| lia].
      cbn.
      destruct (digits_value s _) as [v |] eqn:Hv; [| by right].
      apply digits_value_bounds in Hv; [| lia].
      assert (0 < 10 ^ Z.of_nat (String.length s)) by (apply Z.pow_pos_nonneg; lia).
      destruct (Z.ltb_spec v 18446744073709551616); [nia | done].
Qed.

Lemma ParseUint_spec (s : string) :
  match unsigned_decimal s with
  | Some v =>
      0 ≤ v ∧
      ParseUint s = if v <? 2 ^ 64 then (v, None) else (maxUint64, Some ErrRange)
  | None =>
      ParseUint s = (0, Some ErrSyntax) ∨ ParseUint s = (maxUint64, Some ErrRange)
  end.
Proof.
  destruct s as [| c s]; [by left |].
  unfold unsigned_decimal, ParseUint.
  pose proof (ParseUint_loop_spec (String c s) 0) as Hloop.
  destruct (digits_value (String c s) 0) as [v |] eqn:Hv.
  - split; [| apply Hloop; rewrite pow_2_64; lia].
    apply digits_value_bounds in Hv; [| lia].
    assert (0 < 10 ^ Z.of_nat (String.length (String c s))) by (apply Z.pow_pos_nonneg; lia).
    lia.
  - apply Hloop. rewrite pow_2_64. lia.
Qed.

(** The tail of [ParseInt] after [ParseUint] has run on the unsigned part. *)
Lemma ParseInt_tail (neg : bool) (r : Z * option NumErrKind) (d : option Z) :
  match d with
  | Some v => 0 ≤ v ∧ r = if v <? 2 ^ 64 then (v, None) else (maxUint64, Some ErrRange)
  | None => r = (0, Some ErrSyntax) ∨ r = (maxUint64, Some ErrRange)
  end →
  let out :=
    let '(un, err) := r in
    match err with
    | Some ErrSyntax => (0, Some ErrSyntax)
    | _ =>
        if negb neg && (2 ^ 63 <=? un) then (2 ^ 63 - 1, Some ErrRange)
        else if neg && (2 ^ 63 <? un) then (- 2 ^ 63, Some ErrRange)
        else (if neg then - un else un, None)
    end in
  match (if neg then Z.opp <$> d else d) with
  | Some v =>
      if (- 2 ^ 63 <=? v) && (v <? 2 ^ 63) then out = (v, None) else ∃ n k, out = (n, Some k)
  | None => ∃ n k, out = (n, Some k)
  end.
Proof.
  unfold maxUint64. rewrite pow_2_64.
  change (- 2 ^ 63) with (-9223372036854775808).
  change (2 ^ 63) with 9223372036854775808.
  destruct d as [v |].
  - intros [Hv ->].
    destruct (Z.ltb_spec v 18446744073709551616); destruct neg; cbn.
    + destruct (Z.leb_spec (-9223372036854775808) (- v));
        destruct (Z.ltb_spec (- v) 9223372036854775808);
        destruct (Z.ltb_spec 9223372036854775808 v); cbn; try lia; eauto.
    + destruct (Z.leb_spec (-9223372036854775808) v);
        destruct (Z.ltb_spec v 9223372036854775808);
        destruct (Z.leb_spec 9223372036854775808 v); cbn; try lia; eauto.
    + destruct (Z.leb_spec (-9223372036854775808) (- v));
        destruct (Z.ltb_spec (- v) 9223372036854775808); cbn; try lia; eauto.
    + destruct (Z.leb_spec (-9223372036854775808) v);
        destruct (Z.ltb_spec v 9223372036854775808); cbn; try lia; eauto.
  - intros [-> | ->]; destruct neg; cbn; eauto.
Qed.

Lemma ParseInt_spec (s : string) :
  match parse_int s with
  | Some v => ParseInt s = (v, None)
  | None => ∃ n k, ParseInt s = (n, Some k)
  end.
Proof.
  destruct s as [| c0 rest]; [cbn; eauto |].
  unfold parse_int, signed_decimal, ParseInt.
  destruct (Ascii.eqb_spec c0 "+") as [-> | Hplus].
  - pose proof (ParseInt_tail false (ParseUint rest) _ (ParseUint_spec rest)) as H.
    cbn in *. destruct (unsigned_decimal rest) as [v |]; [| done].
    by destruct ((- 2 ^ 63 <=? v) && (v <? 2 ^ 63)).
  - destruct (Ascii.eqb_spec c0 "-") as [-> | Hminus].
    + pose proof (ParseInt_tail true (ParseUint rest) _ (ParseUint_spec rest)) as H.
      cbn in *. destruct (unsigned_decimal rest) as [v |]; [| done].
      cbn in *. by destruct ((- 2 ^ 63 <=? - v) && (- v <? 2 ^ 63)).
    + pose proof (ParseInt_tail false (ParseUint (String c0 rest)) _
                    (ParseUint_spec (String c0 rest))) as H.
      cbn [orb negb] in *.
      destruct (unsigned_decimal (String c0 rest)) as [v |]; [| done].
      by destruct ((- 2 ^ 63 <=? v) && (v <? 2 ^ 63)).
Qed.

Lemma length_lt_19 (s : string) (v : Z) :
  (Z.of_nat (String.length s) <? 19) = true →
  digits_value s 0 = Some v →
  0 ≤ v < 2 ^ 63.
Proof.
  intros Hlen Hv. apply Z.ltb_lt in Hlen.
  apply digits_value_bounds in Hv; [| lia].
  assert (10 ^ Z.of_nat (String.length s) ≤ 10 ^ 18) by (apply Z.pow_le_mono_r; lia).
  assert (0 < 10 ^ Z.of_nat (String.length s)) by (apply Z.pow_pos_nonneg; lia).
  change (10 ^ 18) with 1000000000000000000 in *.
  change (2 ^ 63) with 9223372036854775808. lia.
Qed.

(** [Atoi] accepts exactly the texts that denote an integer of type [int],
    and returns that integer; every other text gets a [NumError]. *)
Lemma Atoi_spec (s : string) :
  match parse_int s with
  | Some v => Atoi s = (v, None)
  | None => ∃ n k, Atoi s = (n, Some (NumError "Atoi" s k))
  end.
Proof.
  unfold Atoi.
  destruct ((0 <? Z.of_nat (String.length s)) && (Z.of_nat (String.length s) <? 19))
    eqn:Hfast.
  - apply andb_true_iff in Hfast as [Hpos Hlen].
    destruct s as [| c0 rest]; [done |].
    unfold parse_int, signed_decimal.
    assert (Hrest : (Z.of_nat (String.length rest) <? 19) = true).
    { apply Z.ltb_lt in Hlen. apply Z.ltb_lt.
      change (String.length (String c0 rest)) with (S (String.length rest)) in Hlen. lia. }
    destruct (Ascii.eqb_spec c0 "+") as [-> | Hplus];
      [| destruct (Ascii.eqb_spec c0 "-") as [-> | Hminus]].
    + change (Ascii.eqb "+" "-") with false. cbn [orb andb].
      destruct rest as [| c1 rest]; [cbn; eauto |].
      assert (Hl1 : (Z.of_nat (String.length (String c1 rest)) <? 1) = false)
        by (apply Z.ltb_ge; cbn [String.length]; lia).
      rewrite Hl1, Atoi_loop_digits_value. unfold unsigned_decimal.
      destruct (digits_value (String c1 rest) 0) as [v |] eqn:Hv; [| eauto].
      pose proof (length_lt_19 _ _ Hrest Hv) as Hb.
      destruct (Z.leb_spec (- 2 ^ 63) v); [| lia].
      destruct (Z.ltb_spec v (2 ^ 63)); [| lia]. done.
    + cbn [orb andb].
      destruct rest as [| c1 rest]; [cbn; eauto |].
      assert (Hl1 : (Z.of_nat (String.length (String c1 rest)) <? 1) = false)
        by (apply Z.ltb_ge; cbn [String.length]; lia).
      rewrite Hl1, Atoi_loop_digits_value. unfold unsigned_decimal.
      destruct (digits_value (String c1 rest) 0) as [v |] eqn:Hv; [| cbn; eauto].
      pose proof (length_lt_19 _ _ Hrest Hv) as Hb. cbn [fmap option_fmap option_map].
      destruct (Z.leb_spec (- 2 ^ 63) (- v)); [| lia].
      destruct (Z.ltb_spec (- v) (2 ^ 63)); [| lia]. done.
    + cbn [orb andb]. rewrite Atoi_loop_digits_value. unfold unsigned_decimal.
      destruct (digits_value (String c0 rest) 0) as [v |] eqn:Hv; [| eauto].
      pose proof (length_lt_19 _ _ Hlen Hv) as Hb.
      destruct (Z.leb_spec (- 2 ^ 63) v); [| lia].
      destruct (Z.ltb_spec v (2 ^ 63)); [| lia]. done.
  - pose proof (ParseInt_spec s) as H.
    destruct (parse_int s) as [v |].
    + by rewrite H.
    + destruct H as (n & k & ->). cbn. eauto.
Qed.

End AtoiFacts.

(** ** The connection resolver *)

(** C6: two connection specifications with the same url, non-empty once
    trimmed, resolve alike whatever their host, port, user, password and
    database are (and whatever context is passed): the resolver makes the one
    call [pgxpool.New] with the url as it was given. *)
Theorem getConnPool_url_precedence (w : World) (ctx1 ctx2 : context) (a1 a2 : connArgs) :
  url a1 = url a2 →
  trim (url a1) ≠ "" →
  getConnPool w ctx1 a1 = getConnPool w ctx2 a2 ∧
  getConnPool w ctx1 a1
  = (Done (pgxpool_New w context_Background (url a1)),
     [EvNew context_Background (url a1)]).
Proof.
  intros Hurl Hne. unfold getConnPool.
  by rewrite <- Hurl, (negb_eqb_nonempty _ Hne).
Qed.

Lemma getConnPool_url_precedence_witness :
  getConnPool (Scenario.serving Scenario.same_name) Scenario.ctx Scenario.by_url
  = getConnPool (Scenario.serving Scenario.same_name) context_Background
      {| host := "db.internal"; port := "not a port"; user := "root"; password := "x";
         database := "other"; url := url Scenario.by_url |} ∧
  getConnPool (Scenario.serving Scenario.same_name) Scenario.ctx Scenario.by_url
  = (Done (inl (pool_handle 1)),
     [EvNew context_Background "postgres://app@localhost:5432/app"]).
Proof.
  apply (getConnPool_url_precedence (Scenario.serving Scenario.same_name)
           Scenario.ctx context_Background Scenario.by_url).
  - reflexivity.
  - vm_compute. discriminate.
Defined.

(** C1, as amended: with an empty url (once trimmed), a port that is not an
    optionally signed run of decimal digits denoting an integer of Go's type
    [int] makes the resolver fail with the parse error of [strconv.Atoi],
    before any call to the driver: no pool is made. *)
Theorem getConnPool_rejects_non_integer_port (w : World) (ctx : context) (a : connArgs) :
  trim (url a) = "" →
  PortSyntax.parse_int (trim (port a)) = None →
  ∃ k, getConnPool w ctx a = (Done (inr (NumError "Atoi" (trim (port a)) k)), []).
Proof.
  intros Hurl Hport. unfold getConnPool. rewrite (eqb_empty _ Hurl).
  pose proof (Atoi_spec (trim (port a))) as H. rewrite Hport in H.
  destruct H as (n & k & ->). by exists k.
Qed.

Lemma getConnPool_rejects_non_integer_port_witness :
  ∃ k, getConnPool (Scenario.serving Scenario.same_name) Scenario.ctx
         (Scenario.by_fields " 5432x ")
       = (Done (inr (NumError "Atoi" "5432x" k)), []).
Proof.
  apply (getConnPool_rejects_non_integer_port (Scenario.serving Scenario.same_name)
           Scenario.ctx (Scenario.by_fields " 5432x ")).
  - reflexivity.
  - reflexivity.
Defined.

(** C1, as stated, fails: the ports "-1" and "70000" do not parse as
    unsigned 16-bit integers, yet on them the resolver does not fail with an
    error of its own before calling the driver, however the driver answers:
    it asks for a pool on port 65535, respectively 4464. *)
Lemma getConnPool_accepts_port_out_of_range :
  (trim (url (Scenario.by_fields "-1")) = "" ∧
   PortSyntax.parse_uint16 (trim (port (Scenario.by_fields "-1"))) = None ∧
   (¬ ∃ w e, getConnPool w Scenario.ctx (Scenario.by_fields "-1") = (Done (inr e), [])) ∧
   getConnPool (Scenario.serving Scenario.same_name) Scenario.ctx (Scenario.by_fields "-1")
   = (Done (inl (pool_handle 1)),
      [EvNewWithConfig Scenario.ctx
         {| MaxConns := 10; Host := "localhost"; Port := 65535; Database := "app";
            User := "app"; Password := "secret" |}]))
  ∧
  (trim (url (Scenario.by_fields "70000")) = "" ∧
   PortSyntax.parse_uint16 (trim (port (Scenario.by_fields "70000"))) = None ∧
   (¬ ∃ w e, getConnPool w Scenario.ctx (Scenario.by_fields "70000") = (Done (inr e), [])) ∧
   getConnPool (Scenario.serving Scenario.same_name) Scenario.ctx (Scenario.by_fields "70000")
   = (Done (inl (pool_handle 1)),
      [EvNewWithConfig Scenario.ctx
         {| MaxConns := 10; Host := "localhost"; Port := 4464; Database := "app";
            User := "app"; Password := "secret" |}])).
Proof.
  repeat split; try reflexivity; intros (w & e & H); cbn in H; discriminate H.
Qed.

(** A port that does denote an integer is passed on, reduced modulo 2^16. *)
Lemma getConnPool_integer_port (w : World) (ctx : context) (a : connArgs) (n : Z) :
  trim (url a) = "" →
  PortSyntax.parse_int (trim (port a)) = Some n →
  let config := {| MaxConns := 10; Host := host a; Port := n mod 2 ^ 16;
                   Database := database a; User := user a; Password := password a |} in
  getConnPool w ctx a = (pgxpool_NewWithConfig w ctx config, [EvNewWithConfig ctx config]).
Proof.
  intros Hurl Hport. unfold getConnPool. rewrite (eqb_empty _ Hurl).
  pose proof (Atoi_spec (trim (port a))) as H. rewrite Hport in H.
  by rewrite H.
Qed.

(** ** The query executor *)

(** C8: when [pool.Begin] returns an error and no transaction, [execCommand]
    does not return that error: the deferred [tx.Rollback] on the nil handle
    panics with a nil dereference, after which only the pool is closed and the
    process ends as on any panic. *)
Theorem execCommand_begin_failure_panics FromBytes (w : World) (ctx : context)
    (a : connArgs) (sql : string) (pool : Pool) (t : list event) (e : error) :
  getConnPool w ctx a = (Done (inl pool), t) →
  pool_Begin w pool ctx = (None, Some e) →
  execCommand FromBytes w ctx a sql
  = (Panicked NilDereference, t ++ [EvBegin pool ctx None; EvClose pool]) ∧
  fst (execCommand FromBytes w ctx a sql) ≠ Done (Some e) ∧
  exit_status (fst (execCommand FromBytes w ctx a sql)) = 2.
Proof.
  intros Hp Hb. unfold execCommand, defer. rewrite Hp. cbn. by rewrite Hb.
Qed.

Lemma execCommand_begin_failure_panics_witness :
  execCommand uuid.FromBytes Scenario.no_begin Scenario.ctx Scenario.by_url "SELECT 1;"
  = (Panicked NilDereference,
     [EvNew context_Background "postgres://app@localhost:5432/app"]
     ++ [EvBegin (pool_handle 1) Scenario.ctx None; EvClose (pool_handle 1)]) ∧
  fst (execCommand uuid.FromBytes Scenario.no_begin Scenario.ctx Scenario.by_url "SELECT 1;")
  ≠ Done (Some (DriverError "failed to connect")) ∧
  exit_status
    (fst (execCommand uuid.FromBytes Scenario.no_begin Scenario.ctx Scenario.by_url "SELECT 1;"))
  = 2.
Proof.
  apply (execCommand_begin_failure_panics uuid.FromBytes Scenario.no_begin Scenario.ctx
           Scenario.by_url "SELECT 1;" (pool_handle 1)
           [EvNew context_Background "postgres://app@localhost:5432/app"]
           (DriverError "failed to connect")).
  - reflexivity.
  - reflexivity.
Defined.

(** C4: on every run of [execCommand] in which a transaction was begun,
    whether the query fails, the rows are rendered, the materialiser panics or
    the commit fails, the transaction ends committed or rolled back: the
    deferred rollback closes whatever a successful commit has not. *)
Theorem execCommand_settles_transaction FromBytes (w : World) (ctx : context)
    (a : connArgs) (sql : string) :
  tx_begun (snd (execCommand FromBytes w ctx a sql)) →
  ∃ tx, tx_final (snd (execCommand FromBytes w ctx a sql)) = Committed tx
      ∨ tx_final (snd (execCommand FromBytes w ctx a sql)) = RolledBack tx.
Proof.
  unfold tx_final, tx_begun.
  pose proof (getConnPool_trace_no_tx w ctx a) as Ht.
  pose proof (getConnPool_trace_no_begin w ctx a) as Hn.
  unfold execCommand, defer.
  destruct (getConnPool w ctx a) as [[[pool | e] | p] t]; cbn in *.
  - destruct (pool_Begin w pool ctx) as [[tx |] err]; cbn.
    + intros _. exists tx.
      destruct err as [err |]; cbn.
      * rewrite !foldl_app, Ht. cbn. right. by rewrite decide_True.
      * destruct (tx_Query w tx ctx sql) as [res | err]; cbn.
        -- destruct (scanRowsToMaps FromBytes res) as [vals | p]; cbn.
           ++ destruct (tx_Commit w tx ctx) as [err |]; cbn;
                rewrite !foldl_app, Ht; cbn; rewrite ?decide_True by done; auto.
           ++ rewrite !foldl_app, Ht. cbn. right. by rewrite decide_True.
        -- rewrite !foldl_app, Ht. cbn. right. by rewrite decide_True.
    + intros (p & c & tx & Hin). exfalso.
      rewrite !elem_of_app in Hin. destruct Hin as [Hin | Hin].
      * by eapply Hn.
      * not_in_trace Hin.
  - intros (p & c & tx & Hin). exfalso.
    rewrite app_nil_r in Hin. by eapply Hn.
  - intros (p' & c & tx & Hin). exfalso. by eapply Hn.
Qed.

Lemma execCommand_settles_transaction_witness :
  ∃ tx,
    tx_final (snd (execCommand uuid.FromBytes (Scenario.serving Scenario.failing_scan)
                     Scenario.ctx Scenario.by_url "SELECT mood FROM person;")) = Committed tx
    ∨ tx_final (snd (execCommand uuid.FromBytes (Scenario.serving Scenario.failing_scan)
                       Scenario.ctx Scenario.by_url "SELECT mood FROM person;")) = RolledBack tx.
Proof.
  apply (execCommand_settles_transaction uuid.FromBytes
           (Scenario.serving Scenario.failing_scan) Scenario.ctx Scenario.by_url
           "SELECT mood FROM person;").
  exists (pool_handle 1), Scenario.ctx, (tx_handle 1).
  vm_compute. repeat constructor.
Defined.

(** ** The result materialiser *)

(** C9: the row is a map keyed by column name, so when several columns of a
    result set carry one name, every cell rendered for that name (column [j])
    shows the display string of the value of the last column carrying it
    (column [k]); what the earlier columns held is not shown. *)
Theorem same_name_columns_show_last FromBytes (rows : Rows) vals (r : nat) (rr : RowRead)
    (j k : nat) (fj fk : FieldDescription) (vk : any) :
  scanRowsToMaps FromBytes rows = Done vals →
  stream rows !! r = Some rr →
  FieldDescriptions rows !! j = Some fj →
  FieldDescriptions rows !! k = Some fk →
  Name fk = Name fj →
  (∀ (k' : nat) f, (k < k')%nat → FieldDescriptions rows !! k' = Some f →
     Name f ≠ Name fj) →
  scanned_values (FieldDescriptions rows) rr !! k = Some vk →
  ∃ row s,
    vals !! r = Some row ∧
    display_value FromBytes fk vk = Done s ∧
    row !! Name fj = Some (string_any s) ∧
    table_row (FieldDescriptions rows) row !! j = Some (string_any s).
Proof. apply rendered_cell. Qed.

Lemma same_name_columns_show_last_witness :
  ∃ row s,
    [ ({[ "a" := string_any "x" ]} : gmap string any) ] !! 0%nat = Some row ∧
    display_value uuid.FromBytes {| Name := "a"; DataTypeOID := pgtype.TextOID |}
      (string_any "x") = Done s ∧
    row !! "a" = Some (string_any s) ∧
    table_row (FieldDescriptions Scenario.same_name) row !! 0%nat = Some (string_any s).
Proof.
  apply (same_name_columns_show_last uuid.FromBytes Scenario.same_name
           [ {[ "a" := string_any "x" ]} ] 0
           (Scenario.delivered [int_any Int32 1; string_any "x"]) 0 1
           {| Name := "a"; DataTypeOID := pgtype.Int4OID |}
           {| Name := "a"; DataTypeOID := pgtype.TextOID |} (string_any "x")).
  - vm_compute. reflexivity.
  - reflexivity.
  - reflexivity.
  - reflexivity.
  - reflexivity.
  - intros [| [| k']] f Hlt Hf; [lia | lia | discriminate Hf].
  - reflexivity.
Defined.

(** C7, as stated, fails on two result sets. In [SELECT true AS a, 1 AS a;]
    the first column is of type [bool] and holds [true], and the cell shown
    for it is "%!s(int32=1)": the row is a map keyed by column name, and the
    later column of the same name has taken the entry over. In
    [SELECT mood, active FROM person;], where [Scan] fails on [mood] and its
    error is dropped, the slot of the [bool] column [active] is not nil, and
    its display string, which is the cell shown, is
    "%!t(*interface {}=0xc000014040)". Neither is "true" or "false". *)
Lemma bool_column_cell_not_boolean :
  (FieldDescriptions Scenario.bool_then_int !! 0%nat
   = Some {| Name := "a"; DataTypeOID := pgtype.BoolOID |} ∧
   scanned_values (FieldDescriptions Scenario.bool_then_int)
     (Scenario.delivered [bool_any true; int_any Int32 1]) !! 0%nat
   = Some (bool_any true) ∧
   pgexec (Scenario.serving Scenario.bool_then_int) Scenario.ctx Scenario.by_url
     "SELECT true AS a, 1 AS a;"
   = (Done None,
      [ EvNew context_Background "postgres://app@localhost:5432/app";
        EvBegin (pool_handle 1) Scenario.ctx (Some (tx_handle 1));
        EvQuery (tx_handle 1) Scenario.ctx "SELECT true AS a, 1 AS a;";
        EvRender [string_any "a"; string_any "a"]
          [[string_any "%!s(int32=1)"; string_any "%!s(int32=1)"]];
        EvCommit (tx_handle 1) Scenario.ctx None;
        EvRollback (tx_handle 1) Scenario.ctx;
        EvClose (pool_handle 1) ]) ∧
   "%!s(int32=1)" ≠ "true" ∧ "%!s(int32=1)" ≠ "false") ∧
  (FieldDescriptions Scenario.mood_active !! 1%nat
   = Some {| Name := "active"; DataTypeOID := pgtype.BoolOID |} ∧
   (∀ rr, stream Scenario.mood_active !! 0%nat = Some rr →
      scanned_values (FieldDescriptions Scenario.mood_active) rr !! 1%nat
      = Some (ptr_any (Scenario.scans_at + 16))) ∧
   ptr_any (Scenario.scans_at + 16) ≠ nil_any ∧
   display_value uuid.FromBytes {| Name := "active"; DataTypeOID := pgtype.BoolOID |}
     (ptr_any (Scenario.scans_at + 16))
   = Done "%!t(*interface {}=0xc000014040)" ∧
   pgexec (Scenario.serving Scenario.mood_active) Scenario.ctx Scenario.by_url
     "SELECT mood, active FROM person;"
   = (Done None,
      [ EvNew context_Background "postgres://app@localhost:5432/app";
        EvBegin (pool_handle 1) Scenario.ctx (Some (tx_handle 1));
        EvQuery (tx_handle 1) Scenario.ctx "SELECT mood, active FROM person;";
        EvRender [string_any "mood"; string_any "active"]
          [[string_any "%!s(*interface {}=0xc000014030)";
            string_any "%!t(*interface {}=0xc000014040)"]];
        EvCommit (tx_handle 1) Scenario.ctx None;
        EvRollback (tx_handle 1) Scenario.ctx;
        EvClose (pool_handle 1) ]) ∧
   "%!t(*interface {}=0xc000014040)" ≠ "true" ∧
   "%!t(*interface {}=0xc000014040)" ≠ "false").
Proof.
  split.
  - split_and!; [reflexivity | reflexivity | vm_compute; reflexivity | done | done].
  - split_and!; [reflexivity | | done | vm_compute; reflexivity
                | vm_compute; reflexivity | done | done].
    intros rr Hrr. inversion Hrr; subst rr. reflexivity.
Qed.

(** C7, as amended: a value of a boolean column that [Scan] has stored, a Go
    [bool], is displayed as "true" or "false", never as "1" or "0"; and that
    string is the cell rendered for the column in every row that holds the
    value, provided no later column has the same name and takes the cell
    over. *)
Theorem bool_column_display FromBytes (fj : FieldDescription) (b : bool) :
  DataTypeOID fj = pgtype.BoolOID →
  display_value FromBytes fj (bool_any b) = Done (if b then "true" else "false") ∧
  (∀ s, display_value FromBytes fj (bool_any b) = Done s →
        (s = "true" ∨ s = "false") ∧ s ≠ "1" ∧ s ≠ "0") ∧
  (∀ (rows : Rows) vals (r : nat) (rr : RowRead) (j : nat),
     scanRowsToMaps FromBytes rows = Done vals →
     stream rows !! r = Some rr →
     FieldDescriptions rows !! j = Some fj →
     (∀ (k' : nat) f, (j < k')%nat → FieldDescriptions rows !! k' = Some f →
        Name f ≠ Name fj) →
     scanned_values (FieldDescriptions rows) rr !! j = Some (bool_any b) →
     ∃ row,
       vals !! r = Some row ∧
       table_row (FieldDescriptions rows) row !! j
       = Some (string_any (if b then "true" else "false"))).
Proof.
  intros Hoid.
  assert (Hd : display_value FromBytes fj (bool_any b) = Done (if b then "true" else "false")).
  { unfold display_value. rewrite Hoid. cbn. by destruct b. }
  split; [done |]. split.
  - intros s Hs. rewrite Hd in Hs. inversion Hs. by destruct b; auto.
  - intros rows vals r rr j Hrun Hr Hj Hlast Hv.
    destruct (rendered_cell FromBytes rows vals r rr j j fj fj (bool_any b))
      as (row & s & Hrow & Hs & _ & Hcell); try done.
    rewrite Hd in Hs. inversion Hs; subst s. by exists row.
Qed.

Lemma bool_column_display_witness :
  display_value uuid.FromBytes {| Name := "b"; DataTypeOID := pgtype.BoolOID |}
    (bool_any true) = Done "true" ∧
  ∃ row,
    [ ({[ "n" := string_any "%!s(int32=1)"; "b" := string_any "true";
          "x" := string_any "null" ]} : gmap string any) ] !! 0%nat = Some row ∧
    table_row (FieldDescriptions Scenario.select_1_true_null) row !! 1%nat
    = Some (string_any "true").
Proof.
  destruct (bool_column_display uuid.FromBytes
              {| Name := "b"; DataTypeOID := pgtype.BoolOID |} true)
    as (Hshown & _ & Hcell).
  - reflexivity.
  - split; [exact Hshown |].
    apply (Hcell Scenario.select_1_true_null
             [ {[ "n" := string_any "%!s(int32=1)"; "b" := string_any "true";
                  "x" := string_any "null" ]} ] 0%nat
             (Scenario.delivered [int_any Int32 1; bool_any true; nil_any]) 1%nat).
    + vm_compute. reflexivity.
    + reflexivity.
    + reflexivity.
    + intros [| [| [| k']]] f Hlt Hf; [lia | lia | | discriminate Hf].
      inversion Hf; subst f. discriminate.
    + reflexivity.
Defined.



(** C10: [uuid.FromBytes] rejects exactly the inputs whose length is not 16,
    so on the 16 bytes of a [[16]uint8] it always succeeds: the display string
    of such a value in a column of type [uuid] is the canonical text, and the
    hexadecimal fallback, a different string, is never taken. *)
Theorem uuid_fallback_unreachable (name : string) (arr : vec byte 16) :
  uuid.FromBytes (vec_to_list arr) = (arr, None) ∧
  (∀ input, snd (uuid.FromBytes input) = None ↔ length input = 16%nat) ∧
  display_value uuid.FromBytes {| Name := name; DataTypeOID := pgtype.UUIDOID |}
    (array16_any arr) = Done (uuid.String arr) ∧
  uuid.String arr ≠ fmt.Sprintf fmt.verb_x (array16_any arr).
Proof.
  repeat split.
  - apply uuid_FromBytes_vec.
  - by apply uuid_FromBytes_length.
  - by apply uuid_FromBytes_length.
  - unfold display_value. cbn. by rewrite uuid_FromBytes_vec.
  - intros Heq. apply (f_equal String.length) in Heq.
    rewrite length_uuid_String in Heq.
    change (fmt.Sprintf fmt.verb_x (array16_any arr)) with (fmt.hex_bytes (vec_to_list arr)) in Heq.
    rewrite length_hex_bytes, length_vec_to_list in Heq. discriminate.
Qed.

(** C2: the run on [SELECT 1 AS n, true AS b, NULL AS x;] renders the header
    n, b, x and one row, whose first cell is not "1": the [int32] the driver
    delivers goes through the verb [%s], which writes fmt's bad-verb marker. *)
Theorem select_1_true_null_rendered :
  pgexec (Scenario.serving Scenario.select_1_true_null) Scenario.ctx Scenario.by_url
    "SELECT 1 AS n, true AS b, NULL AS x;"
  = (Done None,
     [ EvNew context_Background "postgres://app@localhost:5432/app";
       EvBegin (pool_handle 1) Scenario.ctx (Some (tx_handle 1));
       EvQuery (tx_handle 1) Scenario.ctx "SELECT 1 AS n, true AS b, NULL AS x;";
       EvRender [string_any "n"; string_any "b"; string_any "x"]
         [[string_any "%!s(int32=1)"; string_any "true"; string_any "null"]];
       EvCommit (tx_handle 1) Scenario.ctx None;
       EvRollback (tx_handle 1) Scenario.ctx;
       EvClose (pool_handle 1) ]).
Proof. vm_compute. reflexivity. Qed.

(** C3: a row whose [Scan] fails does not stop the run: the error returned
    by [rows.Scan] is dropped, the slot still holds the pointer it started
    with, the row is rendered from it, the transaction is committed,
    [execCommand] returns no error and the process ends with status 0. *)
Theorem scan_failure_is_dropped :
  pgexec (Scenario.serving Scenario.failing_scan) Scenario.ctx Scenario.by_url
    "SELECT mood FROM person;"
  = (Done None,
     [ EvNew context_Background "postgres://app@localhost:5432/app";
       EvBegin (pool_handle 1) Scenario.ctx (Some (tx_handle 1));
       EvQuery (tx_handle 1) Scenario.ctx "SELECT mood FROM person;";
       EvRender [string_any "mood"] [[string_any "%!s(*interface {}=0xc000014030)"]];
       EvCommit (tx_handle 1) Scenario.ctx None;
       EvRollback (tx_handle 1) Scenario.ctx;
       EvClose (pool_handle 1) ]) ∧
  exit_status (fst (pgexec (Scenario.serving Scenario.failing_scan) Scenario.ctx
                      Scenario.by_url "SELECT mood FROM person;")) = 0.
Proof. split; vm_compute; reflexivity. Qed.

(** * Further properties of the program *)

(** ** [trim] *)

Section TrimFacts.

Import gostrings Text.
Variable set : string.

Lemma append_nil_l (s : string) : "" +:+ s = s.
Proof. reflexivity. Qed.

Lemma append_cons (c : ascii) (a b : string) : String c a +:+ b = String c (a +:+ b).
Proof. reflexivity. Qed.

Tactic Notation "step" := rewrite ?append_nil_l, ?append_cons; simpl.
Tactic Notation "step" "in" hyp(H) :=
  rewrite ?append_nil_l, ?append_cons in H; simpl in H.

Lemma all_in_app (a b : string) : all_in set (a +:+ b) = all_in set a && all_in set b.
Proof.
  induction a as [| c a IH]; [done |]. step.
  rewrite IH. by rewrite andb_assoc.
Qed.

Lemma trimRight_blank (s : string) : all_in set s = true → trimRightASCII s set = "".
Proof.
  induction s as [| c s IH]; [done |]. step.
  intros [Hc Hs]%andb_true_iff. by rewrite (IH Hs), Hc.
Qed.

Lemma trimRight_split (s : string) :
  ∃ r, s = trimRightASCII s set +:+ r ∧ all_in set r = true.
Proof.
  induction s as [| c s (r & Hs & Hr)]; [by exists "" |]. step.
  destruct (trimRightASCII s set) as [| d t] eqn:Ht.
  - step in Hs. subst r.
    destruct (contains set c) eqn:Hc.
    + exists (String c s). step. by rewrite Hc, Hr.
    + by exists s.
  - exists r. step. by rewrite Hs at 1.
Qed.

Lemma trimRight_last (s : string) (c : ascii) :
  last_byte (trimRightASCII s set) = Some c → contains set c = false.
Proof.
  induction s as [| d s IH]; [done |]. step.
  destruct (trimRightASCII s set) as [| e t] eqn:Ht.
  - destruct (contains set d) eqn:Hd; [done |]. step. by intros [= <-].
  - step. simpl in IH. done.
Qed.

Lemma trimRight_fixed (s : string) (c : ascii) :
  last_byte s = Some c → contains set c = false → trimRightASCII s set = s.
Proof.
  induction s as [| d s IH]; [done |].
  destruct s as [| e s].
  - step. intros [= ->] ->. done.
  - intros Hl Hc. change (last_byte (String d (String e s))) with (last_byte (String e s)) in Hl.
    specialize (IH Hl Hc).
    change (trimRightASCII (String d (String e s)) set)
      with (match trimRightASCII (String e s) set with
            | "" => if contains set d then "" else String d ""
            | r => String d r
            end).
    by rewrite IH.
Qed.

Lemma trimRight_app_blank (x r : string) :
  all_in set r = true → trimRightASCII (x +:+ r) set = trimRightASCII x set.
Proof.
  intros Hr. induction x as [| c x IH]; step.
  - by apply trimRight_blank.
  - by rewrite IH.
Qed.

Lemma trimLeft_split (s : string) :
  ∃ l, s = l +:+ trimLeftASCII s set ∧ all_in set l = true.
Proof.
  induction s as [| c s (l & Hs & Hl)]; [by exists "" |]. step.
  destruct (contains set c) eqn:Hc.
  - exists (String c l). step. by rewrite Hc, Hl, <- Hs.
  - by exists "".
Qed.

Lemma trimLeft_first (s : string) (c : ascii) :
  first_byte (trimLeftASCII s set) = Some c → contains set c = false.
Proof.
  induction s as [| d s IH]; [done |]. step.
  destruct (contains set d) eqn:Hd; [done |]. step. by intros [= <-].
Qed.

Lemma trimLeft_app_blank (l x : string) :
  all_in set l = true → trimLeftASCII (l +:+ x) set = trimLeftASCII x set.
Proof.
  induction l as [| c l IH]; [done |]. step.
  intros [Hc Hl]%andb_true_iff. rewrite Hc. by apply IH.
Qed.

Lemma trimLeft_fixed (s : string) (c : ascii) :
  first_byte s = Some c → contains set c = false → trimLeftASCII s set = s.
Proof. destruct s; [done |]. step. by intros [= ->] ->. Qed.

Lemma last_byte_app (a b : string) : b ≠ "" → last_byte (a +:+ b) = last_byte b.
Proof.
  intros Hb. induction a as [| c a IH]; [done |].
  rewrite append_cons. destruct (a +:+ b) as [| d t] eqn:Hab.
  - destruct a; [by simpl in Hab | done].
  - done.
Qed.

Lemma trimLeft_last (s : string) (c : ascii) :
  last_byte (trimLeftASCII s set) = Some c → last_byte s = Some c.
Proof.
  destruct (trimLeft_split s) as (l & Hs & _).
  intros Hl. rewrite Hs at 1. rewrite last_byte_app; [done |].
  by intros Heq; rewrite Heq in Hl.
Qed.

(** A text that is right-clean stays so once its left is trimmed. *)
Lemma trimRight_trimLeft (s : string) :
  trimRightASCII s set = s → trimRightASCII (trimLeftASCII s set) set = trimLeftASCII s set.
Proof.
  induction s as [| c s IH]; [done |]. intros Hs. step.
  destruct (contains set c) eqn:Hc; [| done].
  apply IH. step in Hs.
  destruct (trimRightASCII s set) as [| d t].
  - by rewrite Hc in Hs.
  - by inversion Hs.
Qed.

Lemma trimRight_idem (s : string) :
  trimRightASCII (trimRightASCII s set) set = trimRightASCII s set.
Proof.
  destruct (last_byte (trimRightASCII s set)) as [c |] eqn:Hl.
  - apply (trimRight_fixed _ c); [done |]. by apply (trimRight_last s).
  - destruct (trimRightASCII s set) as [| d t]; [done |].
    exfalso. clear -Hl. revert d Hl. induction t as [| e t IH]; intros d Hl; [done |].
    by apply (IH e).
Qed.

Lemma trimLeft_idem (s : string) :
  trimLeftASCII (trimLeftASCII s set) set = trimLeftASCII s set.
Proof.
  destruct (trimLeftASCII s set) as [| c t] eqn:Ht; [done |].
  apply (trimLeft_fixed _ c); [done |]. apply (trimLeft_first s). by rewrite Ht.
Qed.

End TrimFacts.

Lemma append_assoc (a b c : string) : (a +:+ b) +:+ c = a +:+ (b +:+ c).
Proof.
  induction a as [| x a IH]; [done |]. by rewrite !append_cons, IH.
Qed.

Lemma append_nil_r (a : string) : a +:+ "" = a.
Proof. induction a as [| x a IH]; [done |]. by rewrite append_cons, IH. Qed.

Lemma last_byte_none (s : string) : Text.last_byte s = None → s = "".
Proof.
  induction s as [| c s IH]; [done |]. destruct s as [| d s]; [done |].
  intros Hl. by specialize (IH Hl).
Qed.

Lemma trim_unfold (s : string) :
  trim s = gostrings.trimLeftASCII (gostrings.trimRightASCII s gostrings.cutset)
             gostrings.cutset.
Proof. reflexivity. Qed.

Lemma trim_blank (s : string) : trim s = "" ↔ Text.blank s = true.
Proof.
  rewrite trim_unfold. unfold Text.blank. split.
  - intros Ht.
    destruct (trimRight_split gostrings.cutset s) as (r & Hs & Hr).
    destruct (trimLeft_split gostrings.cutset
                (gostrings.trimRightASCII s gostrings.cutset)) as (l & Hl & Hbl).
    rewrite Ht, append_nil_r in Hl.
    rewrite Hs, Hl, all_in_app, Hr, Hbl. done.
  - intros Hb. by rewrite trimRight_blank.
Qed.

(** X1: trimming twice is trimming once. *)
Theorem trim_idempotent (s : string) : trim (trim s) = trim s.
Proof.
  rewrite !trim_unfold.
  rewrite trimRight_trimLeft by apply trimRight_idem.
  apply trimLeft_idem.
Qed.

(** X2: [trim] takes off a run of cut-set bytes at each end and nothing
    else: the text is the trimmed text between two blank runs, and the
    trimmed text neither starts nor ends with a byte of the cut set. *)
Theorem trim_decompose (s : string) :
  (∃ l r, s = l +:+ trim s +:+ r ∧ Text.blank l = true ∧ Text.blank r = true) ∧
  (∀ c, Text.first_byte (trim s) = Some c → gostrings.contains gostrings.cutset c = false) ∧
  (∀ c, Text.last_byte (trim s) = Some c → gostrings.contains gostrings.cutset c = false).
Proof.
  rewrite trim_unfold. split; [| split].
  - destruct (trimRight_split gostrings.cutset s) as (r & Hs & Hr).
    destruct (trimLeft_split gostrings.cutset
                (gostrings.trimRightASCII s gostrings.cutset)) as (l & Hl & Hbl).
    exists l, r. split; [| done].
    rewrite <- append_assoc, <- Hl. done.
  - apply trimLeft_first.
  - intros c Hc. apply trimLeft_last in Hc. by apply trimRight_last in Hc.
Qed.

(** X3: the trimmed text is empty exactly when the text is blank (empty or
    made of cut-set bytes only). *)
Theorem trim_empty_iff_blank (s : string) : trim s = "" ↔ Text.blank s = true.
Proof. apply trim_blank. Qed.

(** X4: a text that neither starts nor ends with a cut-set byte is what
    [trim] gives back from it, whatever blank runs surround it. *)
Theorem trim_surrounded (l m r : string) :
  Text.blank l = true →
  Text.blank r = true →
  (∀ c, Text.first_byte m = Some c → gostrings.contains gostrings.cutset c = false) →
  (∀ c, Text.last_byte m = Some c → gostrings.contains gostrings.cutset c = false) →
  trim (l +:+ m +:+ r) = m.
Proof.
  intros Hl Hr Hfirst Hlast. rewrite trim_unfold.
  rewrite <- append_assoc, trimRight_app_blank by done.
  destruct (Text.last_byte m) as [c |] eqn:Hm.
  - assert (Hne : m ≠ "") by (by intros ->).
    rewrite (trimRight_fixed _ _ c); [| by rewrite last_byte_app | by apply Hlast].
    rewrite trimLeft_app_blank by done.
    destruct m as [| d m]; [done |]. apply (trimLeft_fixed _ _ d); [done |]. by apply Hfirst.
  - apply last_byte_none in Hm as ->. rewrite append_nil_r.
    by rewrite trimRight_blank.
Qed.

Lemma trim_surrounded_witness :
  trim ((String "009" " ") +:+ "5432 x" +:+ (String "013" (String "010" ""))) = "5432 x".
Proof.
  apply (trim_surrounded (String "009" " ") "5432 x" (String "013" (String "010" ""))).
  - reflexivity.
  - reflexivity.
  - intros c [= <-]. reflexivity.
  - intros c [= <-]. reflexivity.
Defined.

(** ** The resolver *)

Lemma getConnPool_fields (w : World) (ctx : context) (a : connArgs) :
  trim (url a) = "" →
  getConnPool w ctx a
  = match PortSyntax.parse_int (trim (port a)) with
    | Some n => (pgxpool_NewWithConfig w ctx (config_of a n),
                 [EvNewWithConfig ctx (config_of a n)])
    | None =>
        (Done (inr (NumError "Atoi" (trim (port a))
                      (match snd (strconv.Atoi (trim (port a))) with
                       | Some (NumError _ _ k) => k
                       | _ => ErrSyntax
                       end))), [])
    end.
Proof.
  intros Hurl. unfold getConnPool. rewrite (eqb_empty _ Hurl).
  pose proof (Atoi_spec (trim (port a))) as H.
  destruct (PortSyntax.parse_int (trim (port a))) as [n |].
  - by rewrite H.
  - destruct H as (n & k & ->). done.
Qed.

(** X5: a url made of white space only counts as no url. *)
Theorem getConnPool_blank_url (w : World) (ctx : context) (a : connArgs) :
  Text.blank (url a) = true →
  getConnPool w ctx a = getConnPool w ctx (without_url a).
Proof.
  intros Hb. apply trim_blank in Hb.
  by rewrite !getConnPool_fields.
Qed.

Lemma getConnPool_blank_url_witness :
  getConnPool (Scenario.serving Scenario.same_name) Scenario.ctx
    {| host := "localhost"; port := "5432"; user := "app"; password := "secret";
       database := "app"; url := String "009" "  " |}
  = getConnPool (Scenario.serving Scenario.same_name) Scenario.ctx
      (Scenario.by_fields "5432").
Proof.
  apply (getConnPool_blank_url (Scenario.serving Scenario.same_name) Scenario.ctx
           {| host := "localhost"; port := "5432"; user := "app"; password := "secret";
              database := "app"; url := String "009" "  " |}).
  reflexivity.
Defined.

(** X6: with a blank url and a port that denotes the integer [n], the
    resolver makes one call, [NewWithConfig] with the caller's context, at most
    10 connections, the port [n] reduced modulo 65536 and the other fields as
    they were given (not trimmed), and returns what the driver returns. *)
Theorem getConnPool_by_fields (w : World) (ctx : context) (a : connArgs) (n : Z) :
  Text.blank (url a) = true →
  PortSyntax.parse_int (trim (port a)) = Some n →
  getConnPool w ctx a
  = (pgxpool_NewWithConfig w ctx (config_of a n), [EvNewWithConfig ctx (config_of a n)]) ∧
  0 ≤ Port (config_of a n) < 65536 ∧
  (0 ≤ n < 65536 → Port (config_of a n) = n).
Proof.
  intros Hb Hport. apply trim_blank in Hb.
  rewrite (getConnPool_fields _ _ _ Hb), Hport. split; [done |].
  cbn. change (2 ^ 16) with 65536. split.
  - apply Z.mod_pos_bound. lia.
  - intros Hn. by apply Z.mod_small.
Qed.

Lemma getConnPool_by_fields_witness :
  getConnPool (Scenario.serving Scenario.same_name) Scenario.ctx (Scenario.by_fields " +5432 ")
  = (Done (inl (pool_handle 1)),
     [EvNewWithConfig Scenario.ctx
        {| MaxConns := 10; Host := "localhost"; Port := 5432; Database := "app";
           User := "app"; Password := "secret" |}]).
Proof.
  destruct (getConnPool_by_fields (Scenario.serving Scenario.same_name) Scenario.ctx
              (Scenario.by_fields " +5432 ") 5432) as (H & _).
  - reflexivity.
  - reflexivity.
  - exact H.
Defined.

(** X7: the port is not checked against the range of a 16-bit port: two
    ports that differ by a multiple of 65536 resolve to the same call. *)
Theorem getConnPool_port_wraps (w : World) (ctx : context) (a1 a2 : connArgs) (n1 n2 : Z) :
  Text.blank (url a1) = true →
  Text.blank (url a2) = true →
  host a1 = host a2 → user a1 = user a2 → password a1 = password a2 →
  database a1 = database a2 →
  PortSyntax.parse_int (trim (port a1)) = Some n1 →
  PortSyntax.parse_int (trim (port a2)) = Some n2 →
  n1 mod 65536 = n2 mod 65536 →
  getConnPool w ctx a1 = getConnPool w ctx a2.
Proof.
  intros Hb1 Hb2 Hh Hu Hp Hd Hn1 Hn2 Hmod.
  apply trim_blank in Hb1, Hb2.
  rewrite (getConnPool_fields _ _ _ Hb1), (getConnPool_fields _ _ _ Hb2), Hn1, Hn2.
  unfold config_of. change (2 ^ 16) with 65536. by rewrite Hh, Hu, Hp, Hd, Hmod.
Qed.

Lemma getConnPool_port_wraps_witness :
  getConnPool (Scenario.serving Scenario.same_name) Scenario.ctx (Scenario.by_fields "70000")
  = getConnPool (Scenario.serving Scenario.same_name) Scenario.ctx (Scenario.by_fields "4464").
Proof.
  apply (getConnPool_port_wraps (Scenario.serving Scenario.same_name) Scenario.ctx
           (Scenario.by_fields "70000") (Scenario.by_fields "4464") 70000 4464);
    reflexivity.
Defined.

(** X8: the resolver calls the driver at most once, and returns without
    calling it exactly when the url is blank and the port does not denote an
    integer; it then returns an error, never a pool. *)
Theorem getConnPool_silent_iff (w : World) (ctx : context) (a : connArgs) :
  (length (snd (getConnPool w ctx a)) ≤ 1)%nat ∧
  (snd (getConnPool w ctx a) = [] ↔
     Text.blank (url a) = true ∧ PortSyntax.parse_int (trim (port a)) = None) ∧
  (snd (getConnPool w ctx a) = [] → ∃ e, fst (getConnPool w ctx a) = Done (inr e)).
Proof.
  rewrite <- trim_blank.
  destruct (decide (trim (url a) = "")) as [Hurl | Hurl].
  - rewrite (getConnPool_fields _ _ _ Hurl).
    destruct (PortSyntax.parse_int (trim (port a))) as [n |]; cbn.
    + split; [lia |]. split; [| done]. split; [done | by intros [_ ?]].
    + split; [lia |]. split; [done | eauto].
  - unfold getConnPool. rewrite (negb_eqb_nonempty _ Hurl). cbn.
    split; [lia |]. split; [| done]. split; [done | by intros [? _]].
Qed.

(** ** The materialiser *)

Section RowFacts.

Variable FromBytes : list byte → uuid.UUID * option error.

Lemma display_value_panic (f : FieldDescription) (v : any) (p : panic) :
  display_value FromBytes f v = Panicked p →
  p = InterfaceConversion (fmt.type_name v) ∧ uuid_slot_ok f v = false.
Proof.
  unfold display_value, uuid_slot_ok.
  destruct (DataTypeOID f =? pgtype.UUIDOID).
  - destruct v; try done; try (by intros [= <-]).
    destruct (FromBytes _) as [u [e |]]; done.
  - destruct v; destruct (DataTypeOID f =? pgtype.BoolOID); done.
Qed.

Lemma display_value_done (f : FieldDescription) (v : any) (s : string) :
  display_value FromBytes f v = Done s → uuid_slot_ok f v = true.
Proof.
  intros Hs. destruct (uuid_slot_ok f v) eqn:Hok; [done |].
  unfold display_value, uuid_slot_ok in *.
  destruct (DataTypeOID f =? pgtype.UUIDOID); [| done].
  by destruct v.
Qed.

Lemma range_scans_done (fs : list FieldDescription) :
  ∀ (scans : list any) (pre : list FieldDescription) (row row' : gmap string any),
  length scans = length fs →
  range_scans FromBytes (pre ++ fs) (length pre) scans row = Done row' →
  slots_ok fs scans = true ∧
  dom row' = dom row ∪ list_to_set (column_names fs) ∧
  (map_Forall (λ _ v, is_string v = true) row → map_Forall (λ _ v, is_string v = true) row').
Proof.
  induction fs as [| f fs IH]; intros [| v scans] pre row row' Hlen Hrun; try done.
  - cbn in Hrun. inversion Hrun; subst. cbn.
    split; [done |]. split; [by rewrite union_empty_r_L | done].
  - cbn in Hrun. rewrite lookup_app_r, Nat.sub_diag in Hrun by lia. cbn in Hrun.
    destruct (display_value FromBytes f v) as [s | p] eqn:Hs; [| done].
    replace (pre ++ f :: fs) with ((pre ++ [f]) ++ fs) in Hrun by by rewrite <- app_assoc.
    replace (S (length pre)) with (length (pre ++ [f])) in Hrun
      by (rewrite length_app; cbn; lia).
    apply IH in Hrun as (Hok & Hdom & Hstr); [| by inversion Hlen].
    cbn. rewrite (display_value_done _ _ _ Hs), Hok. split; [done |]. split.
    + rewrite Hdom, dom_insert_L. unfold column_names. cbn.
      by rewrite (comm_L (∪) {[Name f]} (dom row)), <- (assoc_L (∪)).
    + intros Hrow. apply Hstr. by apply map_Forall_insert_2.
Qed.

Lemma range_scans_panicked (fs : list FieldDescription) :
  ∀ (scans : list any) (pre : list FieldDescription) (row : gmap string any) (p : panic),
  length scans = length fs →
  range_scans FromBytes (pre ++ fs) (length pre) scans row = Panicked p →
  (∃ d, p = InterfaceConversion d) ∧ slots_ok fs scans = false.
Proof.
  induction fs as [| f fs IH]; intros [| v scans] pre row p Hlen Hrun; try done.
  cbn in Hrun. rewrite lookup_app_r, Nat.sub_diag in Hrun by lia. cbn in Hrun.
  destruct (display_value FromBytes f v) as [s | q] eqn:Hs.
  - replace (pre ++ f :: fs) with ((pre ++ [f]) ++ fs) in Hrun by by rewrite <- app_assoc.
    replace (S (length pre)) with (length (pre ++ [f])) in Hrun
      by (rewrite length_app; cbn; lia).
    apply IH in Hrun as (Hp & Hok); [| by inversion Hlen].
    split; [done |]. cbn. rewrite Hok. by rewrite andb_false_r.
  - inversion Hrun; subst q.
    apply display_value_panic in Hs as [-> Hok]. split; [eauto |].
    cbn. by rewrite Hok.
Qed.

Lemma next_rows_panicked (fields : list FieldDescription) (rs : list RowRead) :
  ∀ acc p,
  next_rows FromBytes fields rs acc = Panicked p →
  ∃ r, r ∈ rs ∧
    range_scans FromBytes fields 0 (scanned_values fields r) ∅ = Panicked p.
Proof.
  induction rs as [| r rs IH]; intros acc p Hrun; [done |].
  rewrite next_rows_cons in Hrun.
  destruct (range_scans FromBytes fields 0 (scanned_values fields r) ∅) as [row | q] eqn:Hr.
  - destruct (IH _ _ Hrun) as (r' & Hin & Hp). exists r'. split; [by right | done].
  - inversion Hrun; subst q. exists r. split; [by left | done].
Qed.

End RowFacts.

Lemma size_names_le (l : list string) :
  (size (list_to_set l : gset string) ≤ length l)%nat.
Proof.
  induction l as [| x l IH]; [done |]. cbn.
  rewrite size_union_alt, size_singleton.
  assert (size (list_to_set l ∖ {[x]} : gset string) ≤ size (list_to_set l : gset string))%nat
    by (apply subseteq_size, subseteq_difference_l; done).
  lia.
Qed.

Lemma scanRowsToMaps_rows FromBytes (rows : Rows) vals :
  scanRowsToMaps FromBytes rows = Done vals →
  Forall2 (λ r row,
             range_scans FromBytes (FieldDescriptions rows) 0
               (scanned_values (FieldDescriptions rows) r) ∅ = Done row)
    (stream rows) vals.
Proof.
  unfold scanRowsToMaps. intros Hrun.
  by destruct (next_rows_rows _ _ _ _ _ Hrun) as (rows' & -> & Hall).
Qed.

Lemma row_map_shape FromBytes (fields : list FieldDescription) (r : RowRead)
    (row : gmap string any) :
  range_scans FromBytes fields 0 (scanned_values fields r) ∅ = Done row →
  slots_ok fields (scanned_values fields r) = true ∧
  dom row = list_to_set (column_names fields) ∧
  map_Forall (λ _ v, is_string v = true) row.
Proof.
  intros Hrun.
  destruct (range_scans_done FromBytes fields (scanned_values fields r) [] ∅ row)
    as (Hok & Hdom & Hstr); [apply length_scanned_values | done |].
  split; [done |]. split.
  - by rewrite Hdom, dom_empty_L, union_empty_l_L.
  - apply Hstr, map_Forall_empty.
Qed.

Lemma scanned_values_lookup (fields : list FieldDescription) (r : RowRead) (i : nat) :
  (i < length fields)%nat →
  scanned_values fields r !! i
  = Some (match stored r !! i with
          | Some (Some v) => v
          | _ => ptr_any (scans_addr r + 16 * Z.of_nat i)
          end).
Proof.
  intros Hi. unfold scanned_values, Scan, make_scans. cbn.
  rewrite !list_lookup_imap, lookup_replicate_2 by done. done.
Qed.

Lemma slots_ok_lookup (fs : list FieldDescription) :
  ∀ (scans : list any) (i : nat) f v,
  slots_ok fs scans = true → fs !! i = Some f → scans !! i = Some v →
  uuid_slot_ok f v = true.
Proof.
  induction fs as [| g fs IH]; intros [| u scans] i f v Hok Hf Hv; try done.
  cbn in Hok. apply andb_true_iff in Hok as [Hg Hok].
  destruct i as [| i]; cbn in *.
  - by inversion Hf; inversion Hv; subst.
  - by eapply IH.
Qed.

Lemma well_typed_iff FromBytes (rows : Rows) :
  (∃ vals, scanRowsToMaps FromBytes rows = Done vals) ↔ well_typed rows = true.
Proof.
  split; [| apply scanRowsToMaps_total].
  intros [vals Hrun]. unfold well_typed. apply forallb_forall. intros r Hin.
  apply list_elem_of_In, list_elem_of_lookup in Hin as [i Hi].
  destruct (Forall2_lookup_l _ _ _ _ _ (scanRowsToMaps_rows _ _ _ Hrun) Hi)
    as (row & _ & Hr).
  by apply row_map_shape in Hr as (Hok & _).
Qed.

Lemma scanRowsToMaps_panic_kind FromBytes (rows : Rows) (p : panic) :
  scanRowsToMaps FromBytes rows = Panicked p → ∃ d, p = InterfaceConversion d.
Proof.
  unfold scanRowsToMaps. intros Hrun.
  apply next_rows_panicked in Hrun as (r & _ & Hr).
  by apply (range_scans_panicked FromBytes _ _ [] ∅ p (length_scanned_values _ r)) in Hr
    as [Hp _].
Qed.

Lemma distinct_names_last (fields : list FieldDescription) (j k : nat) fj fk :
  NoDup (column_names fields) →
  fields !! j = Some fj → fields !! k = Some fk → (j < k)%nat → Name fk ≠ Name fj.
Proof.
  intros Hnd Hj Hk Hlt Heq.
  assert (j = k); [| lia].
  apply (NoDup_lookup _ j k (Name fj) Hnd); unfold column_names;
    rewrite list_lookup_fmap; [by rewrite Hj | rewrite Hk; cbn; by rewrite Heq].
Qed.

Example people_materialised :
  scanRowsToMaps uuid.FromBytes Cases.people = Done Cases.people_maps.
Proof. vm_compute. reflexivity. Qed.

(** X17: a run that does not panic yields one row map per row of the cursor,
    and the rows handed to the table writer are as many. *)
Theorem scanRowsToMaps_length FromBytes (rows : Rows) vals :
  scanRowsToMaps FromBytes rows = Done vals →
  length vals = length (stream rows) ∧
  length (map (table_row (FieldDescriptions rows)) vals) = length (stream rows).
Proof.
  intros Hrun.
  assert (length vals = length (stream rows))
    by (symmetry; by eapply Forall2_length, scanRowsToMaps_rows).
  by rewrite length_map.
Qed.

Lemma scanRowsToMaps_length_witness :
  length Cases.people_maps = length (stream Cases.people) ∧
  length (map (table_row (FieldDescriptions Cases.people)) Cases.people_maps)
  = length (stream Cases.people).
Proof.
  apply (scanRowsToMaps_length uuid.FromBytes Cases.people Cases.people_maps).
  vm_compute. reflexivity.
Defined.

(** X18: the keys of a row map are exactly the column names; it has at most
    one entry per column, exactly one when the names are distinct, and every
    entry is a string. *)
Theorem row_map_keys FromBytes (rows : Rows) vals (row : gmap string any) :
  scanRowsToMaps FromBytes rows = Done vals →
  row ∈ vals →
  dom row = list_to_set (column_names (FieldDescriptions rows)) ∧
  (size row ≤ length (FieldDescriptions rows))%nat ∧
  (NoDup (column_names (FieldDescriptions rows)) →
     size row = length (FieldDescriptions rows)) ∧
  (∀ name v, row !! name = Some v → ∃ s, v = string_any s).
Proof.
  intros Hrun Hin.
  apply list_elem_of_lookup in Hin as [i Hi].
  destruct (Forall2_lookup_r _ _ _ _ _ (scanRowsToMaps_rows _ _ _ Hrun) Hi)
    as (r & _ & Hr).
  apply row_map_shape in Hr as (_ & Hdom & Hstr).
  split; [done |].
  assert (Hsize : size row = size (list_to_set (column_names (FieldDescriptions rows))
                                   : gset string)).
  { by rewrite <- Hdom, size_dom. }
  split; [| split].
  - rewrite Hsize. etrans; [apply size_names_le |].
    unfold column_names. by rewrite length_fmap.
  - intros Hnd. rewrite Hsize, size_list_to_set by done.
    unfold column_names. by rewrite length_fmap.
  - intros name v Hv. specialize (Hstr name v Hv). destruct v; try done. eauto.
Qed.

Lemma row_map_keys_witness :
  dom ({[ "a" := string_any "x" ]} : gmap string any)
  = list_to_set (column_names (FieldDescriptions Scenario.same_name)) ∧
  (size ({[ "a" := string_any "x" ]} : gmap string any)
   ≤ length (FieldDescriptions Scenario.same_name))%nat.
Proof.
  destruct (row_map_keys uuid.FromBytes Scenario.same_name [ {[ "a" := string_any "x" ]} ]
              {[ "a" := string_any "x" ]}) as (Hdom & Hsize & _).
  - vm_compute. reflexivity.
  - constructor.
  - by split.
Defined.

(** X19: every row handed to the table writer has one cell per header column,
    and every cell is a string: no name is looked up that the row map lacks. *)
Theorem rendered_row_shape FromBytes (rows : Rows) vals (row : gmap string any) :
  scanRowsToMaps FromBytes rows = Done vals →
  row ∈ vals →
  length (table_row (FieldDescriptions rows) row)
  = length (table_header (FieldDescriptions rows)) ∧
  Forall (λ cell, is_string cell = true) (table_row (FieldDescriptions rows) row).
Proof.
  intros Hrun Hin. split.
  - unfold table_row, table_header. by rewrite !length_map.
  - apply list_elem_of_lookup in Hin as [i Hi].
    destruct (Forall2_lookup_r _ _ _ _ _ (scanRowsToMaps_rows _ _ _ Hrun) Hi)
      as (r & _ & Hr).
    apply row_map_shape in Hr as (_ & Hdom & Hstr).
    unfold table_row. apply Forall_forall. intros cell Hcell.
    apply list_elem_of_In, in_map_iff in Hcell as (f & <- & Hf).
    apply list_elem_of_In in Hf.
    assert (Hk : Name f ∈ dom row).
    { rewrite Hdom. apply elem_of_list_to_set. unfold column_names.
      apply list_elem_of_fmap. eauto. }
    apply elem_of_dom in Hk as [v Hv]. rewrite Hv. cbn. by apply (Hstr _ _ Hv).
Qed.

Lemma rendered_row_shape_witness :
  length (table_row (FieldDescriptions Scenario.same_name) {[ "a" := string_any "x" ]})
  = length (table_header (FieldDescriptions Scenario.same_name)) ∧
  Forall (λ cell, is_string cell = true)
    (table_row (FieldDescriptions Scenario.same_name) {[ "a" := string_any "x" ]}).
Proof.
  apply (rendered_row_shape uuid.FromBytes Scenario.same_name
           [ {[ "a" := string_any "x" ]} ]).
  - vm_compute. reflexivity.
  - constructor.
Defined.

(** X20: when the column names are distinct, each cell shows the display
    string of the value of its own column. *)
Theorem distinct_names_show_own FromBytes (rows : Rows) vals (r : nat) (rr : RowRead)
    (j : nat) (fj : FieldDescription) (vj : any) :
  scanRowsToMaps FromBytes rows = Done vals →
  NoDup (column_names (FieldDescriptions rows)) →
  stream rows !! r = Some rr →
  FieldDescriptions rows !! j = Some fj →
  scanned_values (FieldDescriptions rows) rr !! j = Some vj →
  ∃ row s,
    vals !! r = Some row ∧
    display_value FromBytes fj vj = Done s ∧
    table_row (FieldDescriptions rows) row !! j = Some (string_any s).
Proof.
  intros Hrun Hnd Hr Hj Hv.
  destruct (rendered_cell FromBytes rows vals r rr j j fj fj vj)
    as (row & s & Hrow & Hs & _ & Hcell); try done.
  - intros k' f Hlt Hf. by apply (distinct_names_last (FieldDescriptions rows) j k' fj f).
  - by exists row, s.
Qed.

Lemma distinct_names_show_own_witness :
  ∃ row s,
    Cases.people_maps !! 0%nat = Some row ∧
    display_value uuid.FromBytes {| Name := "id"; DataTypeOID := pgtype.UUIDOID |}
      (array16_any Scenario.some_uuid) = Done s ∧
    table_row (FieldDescriptions Cases.people) row !! 0%nat = Some (string_any s).
Proof.
  apply (distinct_names_show_own uuid.FromBytes Cases.people Cases.people_maps 0
           (Scenario.delivered [array16_any Scenario.some_uuid; string_any "ada"]) 0
           {| Name := "id"; DataTypeOID := pgtype.UUIDOID |}
           (array16_any Scenario.some_uuid)).
  - vm_compute. reflexivity.
  - compute_done.
  - reflexivity.
  - reflexivity.
  - reflexivity.
Defined.

(** X21: [scanRowsToMaps] returns exactly when every value of a [uuid] column
    is nil or a [[16]uint8]; otherwise it panics, and the only panic it can
    raise is the failed type assertion: no index is ever out of range. *)
Theorem scanRowsToMaps_returns_iff FromBytes (rows : Rows) :
  ((∃ vals, scanRowsToMaps FromBytes rows = Done vals) ↔ well_typed rows = true) ∧
  (∀ p, scanRowsToMaps FromBytes rows = Panicked p → ∃ d, p = InterfaceConversion d) ∧
  (well_typed rows = false →
   ∃ d, scanRowsToMaps FromBytes rows = Panicked (InterfaceConversion d)).
Proof.
  split; [apply well_typed_iff |]. split; [apply scanRowsToMaps_panic_kind |].
  intros Hbad. destruct (scanRowsToMaps FromBytes rows) as [vals | p] eqn:Hrun.
  - assert (well_typed rows = true) by (apply (well_typed_iff FromBytes); eauto). congruence.
  - destruct (scanRowsToMaps_panic_kind _ _ _ Hrun) as [d ->]. eauto.
Qed.

(** X22: a null is displayed as the text null whatever the type of its
    column, also in a [uuid] column, where the type assertion is not tried on
    it; that text is the cell of the column unless a later column has its
    name. *)
Theorem null_cell FromBytes (rows : Rows) vals (r : nat) (rr : RowRead)
    (j : nat) (fj : FieldDescription) :
  scanRowsToMaps FromBytes rows = Done vals →
  stream rows !! r = Some rr →
  FieldDescriptions rows !! j = Some fj →
  (∀ (k' : nat) f, (j < k')%nat → FieldDescriptions rows !! k' = Some f →
     Name f ≠ Name fj) →
  scanned_values (FieldDescriptions rows) rr !! j = Some nil_any →
  ∃ row,
    vals !! r = Some row ∧
    table_row (FieldDescriptions rows) row !! j = Some (string_any "null").
Proof.
  intros Hrun Hr Hj Hlast Hv.
  destruct (rendered_cell FromBytes rows vals r rr j j fj fj nil_any)
    as (row & s & Hrow & Hs & _ & Hcell); try done.
  cbn in Hs. inversion Hs; subst s. by exists row.
Qed.

Lemma null_cell_witness :
  ∃ row,
    Cases.people_maps !! 1%nat = Some row ∧
    table_row (FieldDescriptions Cases.people) row !! 0%nat = Some (string_any "null").
Proof.
  apply (null_cell uuid.FromBytes Cases.people Cases.people_maps 1
           (Scenario.delivered [nil_any; string_any "bob"]) 0
           {| Name := "id"; DataTypeOID := pgtype.UUIDOID |}).
  - vm_compute. reflexivity.
  - reflexivity.
  - reflexivity.
  - intros [| [| k']] f Hlt Hf; [lia | | discriminate Hf].
    inversion Hf. discriminate.
  - reflexivity.
Defined.

(** X23: when [Scan] leaves the slot of a [uuid] column untouched (it failed
    at or before that column), the slot still holds a pointer, the type
    assertion fails and [scanRowsToMaps] panics. *)
Theorem unscanned_uuid_slot_panics FromBytes (rows : Rows) (r : nat) (rr : RowRead)
    (i : nat) (f : FieldDescription) :
  stream rows !! r = Some rr →
  FieldDescriptions rows !! i = Some f →
  DataTypeOID f = pgtype.UUIDOID →
  (∀ v, stored rr !! i ≠ Some (Some v)) →
  ∃ d, scanRowsToMaps FromBytes rows = Panicked (InterfaceConversion d).
Proof.
  intros Hr Hf Hoid Hst.
  destruct (scanRowsToMaps FromBytes rows) as [vals | p] eqn:Hrun.
  - exfalso.
    destruct (Forall2_lookup_l _ _ _ _ _ (scanRowsToMaps_rows _ _ _ Hrun) Hr)
      as (row & _ & Hrow).
    apply row_map_shape in Hrow as (Hok & _).
    pose proof (scanned_values_lookup (FieldDescriptions rows) rr i
                  (lookup_lt_Some _ _ _ Hf)) as Hv.
    pose proof (slots_ok_lookup _ _ _ _ _ Hok Hf Hv) as Hslot.
    unfold uuid_slot_ok in Hslot. rewrite Hoid in Hslot. cbn in Hslot.
    destruct (stored rr !! i) as [[v |] |] eqn:Hs; [by eapply Hst | done | done].
  - destruct (scanRowsToMaps_panic_kind _ _ _ Hrun) as [d ->]. eauto.
Qed.

Lemma unscanned_uuid_slot_panics_witness :
  ∃ d, scanRowsToMaps uuid.FromBytes Cases.unscanned_uuid = Panicked (InterfaceConversion d).
Proof.
  apply (unscanned_uuid_slot_panics uuid.FromBytes Cases.unscanned_uuid 0
           {| stored := []; scan_err := Some (DriverError "can't scan into dest[0]");
              scans_addr := Scenario.scans_at |} 0
           {| Name := "id"; DataTypeOID := pgtype.UUIDOID |}).
  - reflexivity.
  - reflexivity.
  - reflexivity.
  - intros v Hv. discriminate Hv.
Defined.

(** ** The runs of [execCommand] *)

Lemma execCommand_run FromBytes (w : World) (ctx : context) (a : connArgs) (sql : string) :
  Run FromBytes w ctx a sql (execCommand FromBytes w ctx a sql).
Proof.
  destruct (getConnPool w ctx a) as [[[pool | e] | p] t] eqn:Hp.
  - destruct (pool_Begin w pool ctx) as [[tx |] err] eqn:Hb.
    + destruct err as [e |].
      * replace (execCommand FromBytes w ctx a sql)
          with (Done (Some e) : outcome (option error),
                t ++ [EvBegin pool ctx (Some tx); EvRollback tx ctx; EvClose pool])
          by (unfold execCommand, defer; rewrite Hp; cbn; by rewrite Hb).
        by eapply run_begin_error.
      * destruct (tx_Query w tx ctx sql) as [res | e] eqn:Hq.
        -- destruct (scanRowsToMaps FromBytes res) as [vals | p] eqn:Hs.
           ++ rewrite (execCommand_renders _ _ _ _ _ _ _ _ _ _ Hp Hb Hq Hs).
              by eapply run_rendered.
           ++ replace (execCommand FromBytes w ctx a sql)
                with (Panicked p : outcome (option error),
                      t ++ [EvBegin pool ctx (Some tx); EvQuery tx ctx sql;
                            EvRollback tx ctx; EvClose pool])
                by (unfold execCommand, defer; rewrite Hp; cbn; rewrite Hb; cbn;
                    rewrite Hq; cbn; by rewrite Hs).
              by eapply run_scan_panic.
        -- replace (execCommand FromBytes w ctx a sql)
             with (Done (Some e) : outcome (option error),
                   t ++ [EvBegin pool ctx (Some tx); EvQuery tx ctx sql;
                         EvRollback tx ctx; EvClose pool])
             by (unfold execCommand, defer; rewrite Hp; cbn; rewrite Hb; cbn;
                 by rewrite Hq).
           by eapply run_query_error.
    + replace (execCommand FromBytes w ctx a sql)
        with (Panicked NilDereference : outcome (option error),
              t ++ [EvBegin pool ctx None; EvClose pool])
        by (unfold execCommand, defer; rewrite Hp; cbn; by rewrite Hb).
      by eapply run_no_transaction.
  - replace (execCommand FromBytes w ctx a sql)
      with (Done (Some e) : outcome (option error), t)
      by (unfold execCommand; rewrite Hp; cbn; by rewrite app_nil_r).
    by apply run_resolver_error.
  - replace (execCommand FromBytes w ctx a sql)
      with (Panicked p : outcome (option error), t)
      by (unfold execCommand; by rewrite Hp).
    by apply run_resolver_panic.
Qed.

Lemma resolver_calls (w : World) (ctx : context) (a : connArgs) o (t : list event) :
  getConnPool w ctx a = (o, t) →
  t = [] ∨ (∃ c s, t = [EvNew c s]) ∨ (∃ c cfg, t = [EvNewWithConfig c cfg]).
Proof.
  intros Hp. pose proof (getConnPool_trace w ctx a) as Ht. by rewrite Hp in Ht.
Qed.

Ltac run_cases FromBytes w ctx a sql :=
  let Hrun := fresh "Hrun" in
  pose proof (execCommand_run FromBytes w ctx a sql) as Hrun;
  destruct Hrun as
    [ re rt RP | rpanic rt RP | rpool rt rerr RP RB | rpool rt rtx re RP RB
    | rpool rt rtx re RP RB RQ | rpool rt rtx rres rpanic RP RB RQ RS
    | rpool rt rtx rres rvals RP RB RQ RS ];
  pose proof (resolver_calls _ _ _ _ _ RP) as RT.

Ltac resolver_cases :=
  match goal with
  | RT : _ ∨ _ |- _ => destruct RT as [-> | [(? & ? & ->) | (? & ? & ->)]]
  end.

Ltac by_runs FromBytes w ctx a sql := run_cases FromBytes w ctx a sql; resolver_cases.

(** X9: a pool the resolver returned is closed exactly once, and closing it
    is the last call of the run, however the run ends. *)
Theorem pool_closed_once FromBytes (w : World) (ctx : context) (a : connArgs)
    (sql : string) (pool : Pool) (t : list event) :
  getConnPool w ctx a = (Done (inl pool), t) →
  last (snd (execCommand FromBytes w ctx a sql)) = Some (EvClose pool) ∧
  count_events is_close (snd (execCommand FromBytes w ctx a sql)) = 1%nat ∧
  count_events is_begin (snd (execCommand FromBytes w ctx a sql)) = 1%nat.
Proof.
  intros Hpool.
  by_runs FromBytes w ctx a sql; rewrite Hpool in RP; inversion RP; subst; done.
Qed.

Lemma pool_closed_once_witness :
  last (snd (execCommand uuid.FromBytes Scenario.no_begin Scenario.ctx Scenario.by_url
               "SELECT 1;")) = Some (EvClose (pool_handle 1)) ∧
  count_events is_close
    (snd (execCommand uuid.FromBytes Scenario.no_begin Scenario.ctx Scenario.by_url
            "SELECT 1;")) = 1%nat ∧
  count_events is_begin
    (snd (execCommand uuid.FromBytes Scenario.no_begin Scenario.ctx Scenario.by_url
            "SELECT 1;")) = 1%nat.
Proof.
  apply (pool_closed_once uuid.FromBytes Scenario.no_begin Scenario.ctx Scenario.by_url
           "SELECT 1;" (pool_handle 1)
           [EvNew context_Background "postgres://app@localhost:5432/app"]).
  reflexivity.
Defined.

(** X10: once [Begin] has returned a transaction, [Rollback] is called on it
    exactly once, with the caller's context, as the last call before the pool
    is closed: also when [Begin] returned an error with it and after a commit. *)
Theorem rollback_once_before_close FromBytes (w : World) (ctx : context) (a : connArgs)
    (sql : string) (pool : Pool) (t : list event) (tx : Tx) (err : option error) :
  getConnPool w ctx a = (Done (inl pool), t) →
  pool_Begin w pool ctx = (Some tx, err) →
  (∃ mid, snd (execCommand FromBytes w ctx a sql)
          = t ++ EvBegin pool ctx (Some tx) :: mid ++ [EvRollback tx ctx; EvClose pool]) ∧
  count_events is_rollback (snd (execCommand FromBytes w ctx a sql)) = 1%nat.
Proof.
  intros Hpool Hbegin.
  by_runs FromBytes w ctx a sql; rewrite Hpool in RP; inversion RP; subst;
    rewrite Hbegin in RB; inversion RB; subst;
    (split; [| done]);
    first [ by exists [] | by eexists [_] | by eexists [_; _; _] ].
Qed.

Lemma rollback_once_before_close_witness :
  (∃ mid,
     snd (execCommand uuid.FromBytes (Scenario.serving Scenario.same_name) Scenario.ctx
            Scenario.by_url "SELECT 1 AS a, 'x' AS a;")
     = [EvNew context_Background "postgres://app@localhost:5432/app"]
       ++ EvBegin (pool_handle 1) Scenario.ctx (Some (tx_handle 1))
          :: mid ++ [EvRollback (tx_handle 1) Scenario.ctx; EvClose (pool_handle 1)]) ∧
  count_events is_rollback
    (snd (execCommand uuid.FromBytes (Scenario.serving Scenario.same_name) Scenario.ctx
            Scenario.by_url "SELECT 1 AS a, 'x' AS a;")) = 1%nat.
Proof.
  apply (rollback_once_before_close uuid.FromBytes (Scenario.serving Scenario.same_name)
           Scenario.ctx Scenario.by_url "SELECT 1 AS a, 'x' AS a;" (pool_handle 1)
           [EvNew context_Background "postgres://app@localhost:5432/app"]
           (tx_handle 1) None).
  - reflexivity.
  - reflexivity.
Defined.

(** X11: [execCommand] returns no error exactly when the transaction ends
    committed; the process then exits with status 0, and with another status
    on every other run. *)
Theorem nil_iff_committed FromBytes (w : World) (ctx : context) (a : connArgs)
    (sql : string) :
  (fst (execCommand FromBytes w ctx a sql) = Done None ↔
     ∃ tx, tx_final (snd (execCommand FromBytes w ctx a sql)) = Committed tx) ∧
  (exit_status (fst (execCommand FromBytes w ctx a sql)) = 0 ↔
     fst (execCommand FromBytes w ctx a sql) = Done None).
Proof.
  split.
  - by_runs FromBytes w ctx a sql; unfold tx_final; cbn;
      rewrite ?decide_True by done;
      try (split; [done | by intros [? ?]]);
      match goal with
      | |- context [tx_Commit w ?x ctx] => destruct (tx_Commit w x ctx) as [? |]
      end; cbn;
      rewrite ?decide_True by done;
      (split; [by (intros ?; eauto) | by intros [? ?]]).
  - destruct (fst (execCommand FromBytes w ctx a sql)) as [[e |] | p]; done.
Qed.

Ltac in_trace H :=
  repeat (apply elem_of_cons in H as [H | H]; [try discriminate H |]);
  try (by apply elem_of_nil in H).

(** X12: when a table is handed to the writer, it is the materialised result
    of the query that was sent (its names as header, one row per row map); it
    is handed over once, [Commit] is called right after, and what [Commit]
    returns is what [execCommand] returns. *)
Theorem rendered_then_committed FromBytes (w : World) (ctx : context) (a : connArgs)
    (sql : string) (header : list any) (body : list (list any)) :
  EvRender header body ∈ snd (execCommand FromBytes w ctx a sql) →
  ∃ pre pool tx res vals,
    snd (execCommand FromBytes w ctx a sql)
    = pre ++ [EvRender header body; EvCommit tx ctx (tx_Commit w tx ctx);
              EvRollback tx ctx; EvClose pool] ∧
    count_events is_render pre = 0%nat ∧
    fst (execCommand FromBytes w ctx a sql) = Done (tx_Commit w tx ctx) ∧
    tx_Query w tx ctx sql = inl res ∧
    scanRowsToMaps FromBytes res = Done vals ∧
    header = table_header (FieldDescriptions res) ∧
    body = map (table_row (FieldDescriptions res)) vals.
Proof.
  run_cases FromBytes w ctx a sql; cbn; intros Hin.
  1-6: resolver_cases; in_trace Hin.
  exists (rt ++ [EvBegin rpool ctx (Some rtx); EvQuery rtx ctx sql]), rpool, rtx, rres, rvals.
  rewrite <- app_assoc.
  resolver_cases; in_trace Hin; inversion Hin; subst; split_and!; done.
Qed.

(** X13: [Commit] is called at most once, directly after the table has been
    handed to the writer, on the transaction that [Begin] returned, without an
    error, for the pool of the resolver, and with the caller's context; what
    it returns is what [execCommand] returns. *)
Theorem commit_after_render FromBytes (w : World) (ctx : context) (a : connArgs)
    (sql : string) (tx : Tx) (c : context) (e : option error) :
  EvCommit tx c e ∈ snd (execCommand FromBytes w ctx a sql) →
  c = ctx ∧ e = tx_Commit w tx ctx ∧
  fst (execCommand FromBytes w ctx a sql) = Done e ∧
  count_events is_commit (snd (execCommand FromBytes w ctx a sql)) = 1%nat ∧
  ∃ pool header body,
    fst (getConnPool w ctx a) = Done (inl pool) ∧
    pool_Begin w pool ctx = (Some tx, None) ∧
    snd (execCommand FromBytes w ctx a sql)
    = snd (getConnPool w ctx a)
      ++ [ EvBegin pool ctx (Some tx); EvQuery tx ctx sql; EvRender header body;
           EvCommit tx c e; EvRollback tx ctx; EvClose pool ].
Proof.
  run_cases FromBytes w ctx a sql; cbn; intros Hin.
  1-6: resolver_cases; in_trace Hin.
  assert (Hev : EvCommit tx c e = EvCommit rtx ctx (tx_Commit w rtx ctx))
    by (resolver_cases; in_trace Hin; done).
  inversion Hev; subst. rewrite RP. split_and!; try done.
  - by resolver_cases.
  - by eexists rpool, _, _.
Qed.

(** X14: an error [execCommand] returns is, unchanged, the error of the
    resolver, of [Begin], of [Query] or of [Commit]. *)
Theorem returned_error_source FromBytes (w : World) (ctx : context) (a : connArgs)
    (sql : string) (e : error) :
  fst (execCommand FromBytes w ctx a sql) = Done (Some e) →
  fst (getConnPool w ctx a) = Done (inr e) ∨
  ∃ pool tx,
    fst (getConnPool w ctx a) = Done (inl pool) ∧
    fst (pool_Begin w pool ctx) = Some tx ∧
    (snd (pool_Begin w pool ctx) = Some e ∨
     snd (pool_Begin w pool ctx) = None ∧
     (tx_Query w tx ctx sql = inr e ∨
      (∃ res, tx_Query w tx ctx sql = inl res) ∧ tx_Commit w tx ctx = Some e)).
Proof.
  by_runs FromBytes w ctx a sql; cbn; intros He; inversion He; subst;
    rewrite ?RP, ?RB; cbn; first [ by left | right; eexists _, _; split_and!; eauto ].
  all: rewrite RB; cbn; eauto 10.
Qed.

Lemma rendered_then_committed_witness :
  ∃ pre pool tx res vals,
    snd (execCommand uuid.FromBytes (Scenario.serving Scenario.same_name) Scenario.ctx
           Scenario.by_url "SELECT 1 AS a, 'x' AS a;")
    = pre ++ [EvRender [string_any "a"; string_any "a"] [[string_any "x"; string_any "x"]];
              EvCommit tx Scenario.ctx
                (tx_Commit (Scenario.serving Scenario.same_name) tx Scenario.ctx);
              EvRollback tx Scenario.ctx; EvClose pool] ∧
    count_events is_render pre = 0%nat ∧
    fst (execCommand uuid.FromBytes (Scenario.serving Scenario.same_name) Scenario.ctx
           Scenario.by_url "SELECT 1 AS a, 'x' AS a;")
    = Done (tx_Commit (Scenario.serving Scenario.same_name) tx Scenario.ctx) ∧
    tx_Query (Scenario.serving Scenario.same_name) tx Scenario.ctx "SELECT 1 AS a, 'x' AS a;"
    = inl res ∧
    scanRowsToMaps uuid.FromBytes res = Done vals ∧
    [string_any "a"; string_any "a"] = table_header (FieldDescriptions res) ∧
    [[string_any "x"; string_any "x"]] = map (table_row (FieldDescriptions res)) vals.
Proof.
  apply (rendered_then_committed uuid.FromBytes (Scenario.serving Scenario.same_name)
           Scenario.ctx Scenario.by_url "SELECT 1 AS a, 'x' AS a;").
  vm_compute. repeat constructor.
Defined.

Lemma commit_after_render_witness :
  Scenario.ctx = Scenario.ctx ∧
  None = tx_Commit (Scenario.serving Scenario.same_name) (tx_handle 1) Scenario.ctx ∧
  fst (execCommand uuid.FromBytes (Scenario.serving Scenario.same_name) Scenario.ctx
         Scenario.by_url "SELECT 1 AS a, 'x' AS a;") = Done None ∧
  ∃ pool,
    fst (getConnPool (Scenario.serving Scenario.same_name) Scenario.ctx Scenario.by_url)
    = Done (inl pool) ∧
    pool_Begin (Scenario.serving Scenario.same_name) pool Scenario.ctx
    = (Some (tx_handle 1), None).
Proof.
  destruct (commit_after_render uuid.FromBytes (Scenario.serving Scenario.same_name)
              Scenario.ctx Scenario.by_url "SELECT 1 AS a, 'x' AS a;"
              (tx_handle 1) Scenario.ctx None)
    as (H1 & H2 & H3 & _ & pool & _ & _ & H4 & H5 & _).
  - vm_compute. repeat constructor.
  - split_and!; [done | done | done |]. by exists pool.
Defined.

Lemma returned_error_source_witness :
  fst (getConnPool Worlds.failing_query Scenario.ctx Scenario.by_url)
  = Done (inr (DriverError "ERROR: syntax error at or near SELEC")) ∨
  ∃ pool tx,
    fst (getConnPool Worlds.failing_query Scenario.ctx Scenario.by_url) = Done (inl pool) ∧
    fst (pool_Begin Worlds.failing_query pool Scenario.ctx) = Some tx ∧
    (snd (pool_Begin Worlds.failing_query pool Scenario.ctx)
     = Some (DriverError "ERROR: syntax error at or near SELEC") ∨
     snd (pool_Begin Worlds.failing_query pool Scenario.ctx) = None ∧
     (tx_Query Worlds.failing_query tx Scenario.ctx "SELEC 1;"
      = inr (DriverError "ERROR: syntax error at or near SELEC") ∨
      (∃ res, tx_Query Worlds.failing_query tx Scenario.ctx "SELEC 1;" = inl res) ∧
      tx_Commit Worlds.failing_query tx Scenario.ctx
      = Some (DriverError "ERROR: syntax error at or near SELEC"))).
Proof.
  apply (returned_error_source uuid.FromBytes Worlds.failing_query Scenario.ctx
           Scenario.by_url "SELEC 1;").
  reflexivity.
Defined.

(** X15: [execCommand] panics only when the driver panics in the resolver,
    when [Begin] returns no transaction (the deferred call on the nil handle),
    or when the type assertion on a value of a [uuid] column fails. *)
Theorem panic_source FromBytes (w : World) (ctx : context) (a : connArgs)
    (sql : string) (p : panic) :
  fst (execCommand FromBytes w ctx a sql) = Panicked p →
  fst (getConnPool w ctx a) = Panicked p ∨
  (∃ pool, fst (getConnPool w ctx a) = Done (inl pool) ∧
           (p = NilDereference ∧ fst (pool_Begin w pool ctx) = None ∨
            ∃ tx res d,
              pool_Begin w pool ctx = (Some tx, None) ∧
              tx_Query w tx ctx sql = inl res ∧
              scanRowsToMaps FromBytes res = Panicked p ∧
              p = InterfaceConversion d ∧
              well_typed res = false)).
Proof.
  run_cases FromBytes w ctx a sql; cbn; intros Hp; inversion Hp; subst;
    rewrite ?RP, ?RB; cbn.
  - by left.
  - right. eexists. split; [done |]. left. by rewrite RB.
  - right. eexists. split; [done |]. right.
    destruct (scanRowsToMaps_panic_kind _ _ _ RS) as [d ->].
    exists rtx, rres, d. split_and!; try done.
    destruct (well_typed rres) eqn:Hwt; [| done].
    apply (scanRowsToMaps_total FromBytes) in Hwt as [vals Hv]. congruence.
Qed.

Lemma panic_source_witness :
  fst (getConnPool Scenario.no_begin Scenario.ctx Scenario.by_url) = Panicked NilDereference ∨
  (∃ pool,
     fst (getConnPool Scenario.no_begin Scenario.ctx Scenario.by_url) = Done (inl pool) ∧
     (NilDereference = NilDereference ∧
      fst (pool_Begin Scenario.no_begin pool Scenario.ctx) = None ∨
      ∃ tx res d,
        pool_Begin Scenario.no_begin pool Scenario.ctx = (Some tx, None) ∧
        tx_Query Scenario.no_begin tx Scenario.ctx "SELECT 1;" = inl res ∧
        scanRowsToMaps uuid.FromBytes res = Panicked NilDereference ∧
        NilDereference = InterfaceConversion d ∧
        well_typed res = false)).
Proof.
  apply (panic_source uuid.FromBytes Scenario.no_begin Scenario.ctx Scenario.by_url
           "SELECT 1;" NilDereference).
  reflexivity.
Defined.

(** X16: the statement reaches the driver unchanged, at most once, with the
    caller's context, and only on a transaction that [Begin] returned without
    an error. *)
Theorem query_sent_verbatim FromBytes (w : World) (ctx : context) (a : connArgs)
    (sql : string) (tx : Tx) (c : context) (s : string) :
  EvQuery tx c s ∈ snd (execCommand FromBytes w ctx a sql) →
  s = sql ∧ c = ctx ∧
  count_events is_query (snd (execCommand FromBytes w ctx a sql)) = 1%nat ∧
  ∃ pool, fst (getConnPool w ctx a) = Done (inl pool) ∧
          pool_Begin w pool ctx = (Some tx, None).
Proof.
  run_cases FromBytes w ctx a sql; cbn; intros Hin.
  1-4: resolver_cases; in_trace Hin.
  all: assert (Hev : EvQuery tx c s = EvQuery rtx ctx sql)
         by (resolver_cases; in_trace Hin; done);
       inversion Hev; subst; rewrite RP; split_and!; try done;
       [by resolver_cases | by exists rpool].
Qed.

Lemma query_sent_verbatim_witness :
  "SELEC 1;" = "SELEC 1;" ∧ Scenario.ctx = Scenario.ctx ∧
  count_events is_query
    (snd (execCommand uuid.FromBytes Worlds.failing_query Scenario.ctx Scenario.by_url
            "SELEC 1;")) = 1%nat.
Proof.
  destruct (query_sent_verbatim uuid.FromBytes Worlds.failing_query Scenario.ctx
              Scenario.by_url "SELEC 1;" (tx_handle 1) Scenario.ctx "SELEC 1;")
    as (H1 & H2 & H3 & _).
  - vm_compute. repeat constructor.
  - by split_and!.
Defined.
